(** * snapshotter: golden-file snapshot assertions for Go tests

    A shallow embedding of [snapshotter/snapshotter.go].  The package keeps
    an ordered list of named captures in memory ([Snapshot]) and, when the
    test finishes ([Verify]), either rewrites a golden file under
    [testdata/] or compares the captures against it.

    What the package imports from elsewhere (encoding/json, go-difflib,
    godebug/pretty, os, io/ioutil) is not part of the repository; those
    functions are the fields of the class [Env] below and the properties of
    them that a theorem relies on are stated as named laws. *)

From Stdlib Require Import String Ascii List ZArith Lia.
From stdpp Require Import base tactics option list strings pretty gmap.

Local Open Scope string_scope.
Local Open Scope list_scope.

(** ** Strings

    Go strings are byte sequences, as are Rocq's. *)

(** [strings.Replace(s, old, new, -1)] for a non-empty [old]: every
    non-overlapping occurrence, scanning from the left.  [skip] counts the
    bytes of a matched occurrence that are still to be dropped. *)
Fixpoint Replace_from (old new s : string) (skip : nat) : string :=
  match s with
  | EmptyString => EmptyString
  | String c rest =>
      match skip with
      | S k => Replace_from old new rest k
      | O =>
          if String.prefix old s
          then new +:+ Replace_from old new rest (String.length old - 1)
          else String c (Replace_from old new rest 0)
      end
  end.

Definition strings_Replace (s old new : string) : string :=
  Replace_from old new s 0.

(** [filepath.Join(dir, file)] on a system whose separator is [/].  Join
    also cleans the result; a [file] without separator that is not empty,
    [.] or [..] (every file name [Verify] builds ends in [.snapshots.json]
    and has had its [/] replaced) is left as it is by the cleaning, and so
    is the single element [testdata]. *)
Definition filepath_Join (dir file : string) : string :=
  dir +:+ "/" +:+ file.

(** The first lines of [Verify]: the golden file of test [t_Name] for a
    Snapshotter whose discriminator is [s_name]. *)
Definition Verify_nameSuffix (s_name : string) : string :=
  if decide (s_name ≠ "")
  then "_" +:+ strings_Replace (strings_Replace s_name "/" "-") ":" "-"
  else "".

Definition Verify_name (t_Name s_name : string) : string :=
  filepath_Join "testdata"
    (strings_Replace (strings_Replace t_Name "/" "-") ":" "-"
       +:+ Verify_nameSuffix s_name +:+ ".snapshots.json").

(** The sanitisation as the specification words it: every [/] and every
    [:] becomes [-], byte by byte. *)
Definition sanitize_byte (c : ascii) : ascii :=
  if decide (c = "/"%char) then "-"%char
  else if decide (c = ":"%char) then "-"%char
  else c.

Fixpoint sanitize (s : string) : string :=
  match s with
  | EmptyString => EmptyString
  | String c rest => String (sanitize_byte c) (sanitize rest)
  end.

(** ** Values and collaborators *)

(** Line feed, for the format strings that contain one. *)
Definition LF : string := String (ascii_of_nat 10) EmptyString.

(** A Go call that returns [(value, error)]. *)
Inductive result (E A : Type) : Type :=
| Ok (a : A)
| Err (e : E).
Arguments Ok {E A} a.
Arguments Err {E A} e.

(** What an [interface{}] can hold, as far as the package tells values
    apart: [coerceToString] and [Verify] test for [string]; [diffString] is
    also handed [[]string] (the name sequences) and [[]interface{}] (an
    entry's values).  Every other dynamic type is an [other]. *)
#[local] Set Warnings "-register-all".
Inductive any (other : Type) : Type :=
| GoString (s : string)
| GoStrings (l : list string)
| GoSlice (l : list (any other))
| GoOther (o : other).
Arguments GoString {other} s.
Arguments GoStrings {other} l.
Arguments GoSlice {other} l.
Arguments GoOther {other} o.

(** The type assertion [i.(string)]. *)
Definition as_string {other : Type} (i : any other) : option string :=
  match i with
  | GoString s => Some s
  | _ => None
  end.

(** [type snapshot struct { Name string; Values []interface{} }] as the
    JSON encoder reads it and the decoder builds it: the values themselves. *)
Record snapshot_data (other : Type) : Type := SnapshotData {
  data_Name : string;
  data_Values : list (any other)
}.
Arguments SnapshotData {other} _ _.
Arguments data_Name {other} _.
Arguments data_Values {other} _.

(** [difflib.UnifiedDiff], with the fields [diffString] sets. *)
Record UnifiedDiff : Type := {
  A : list string;
  B : list string;
  FromFile : string;
  ToFile : string;
  Context : Z
}.

(** The imported functions.  [bytes] is what the JSON encoder produces and
    the file system stores; the package never looks inside.  [World] is the
    state of the file system. *)
Class Env : Type := {
  other : Type;
  error : Type;
  bytes : Type;
  World : Type;
  (* encoding/json *)
  json_Marshal : any other → result error bytes;
  json_Unmarshal : bytes → result error (any other);
  json_MarshalIndent : list (snapshot_data other) → string → string → result error bytes;
  (* decoding into [[]*snapshot]: a JSON [null] element gives a nil pointer *)
  json_Unmarshal_snapshots : bytes → result error (list (option (snapshot_data other)));
  (* godebug/pretty and go-difflib *)
  pretty_Sprint : any other → string;
  difflib_SplitLines : string → list string;
  difflib_GetUnifiedDiffString : UnifiedDiff → string * option error;
  (* os and io/ioutil; [None] is a nil error *)
  os_Stat : World → string → option error;
  os_IsNotExist : option error → bool;
  os_Remove : World → string → World * option error;
  os_MkdirAll : World → string → Z → World * option error;
  ioutil_WriteFile : World → string → bytes → Z → World * option error;
  ioutil_ReadFile : World → string → result error bytes
}.

(** ** The package *)

Section Snapshotter.
Context `{Env}.

(** An argument of [Errorf]. *)
Inductive arg : Type :=
| ArgString (s : string)
| ArgValue (v : any other)
| ArgError (e : error).

(** One call [t.Errorf(format, args...)]. *)
Record report : Type := Report {
  format : string;
  args : list arg
}.

(** The interface [T]: [Name()] answers [T_Name]; [Errorf] appends to
    [T_errors]; [Helper()] is counted. *)
Record T : Type := {
  T_Name : string;
  T_errors : list report;
  T_helpers : nat
}.

Definition Errorf (t : T) (fmt : string) (xs : list arg) : T :=
  {| T_Name := T_Name t;
     T_errors := T_errors t ++ [Report fmt xs];
     T_helpers := T_helpers t |}.

Definition Helper (t : T) : T :=
  {| T_Name := T_Name t;
     T_errors := T_errors t;
     T_helpers := S (T_helpers t) |}.

Definition jsonRoundTrip (value : any other) : result error (any other) :=
  match json_Marshal value with
  | Err err => Err err
  | Ok bs =>
      match json_Unmarshal bs with
      | Err err => Err err
      | Ok roundtripped => Ok roundtripped
      end
  end.

(** A slice is the address of its backing array in the store (a slice is
    taken to span its array); a caller that keeps the slice it passed to
    [Snapshot] shares that array with the entry.  An address the store does
    not hold is the nil slice. *)
Definition loc : Type := positive.

Definition index (h : gmap loc (list (any other))) (values : loc) : list (any other) :=
  default [] (h !! values).

Record snapshot : Type := {
  Name : string;
  Values : loc
}.

Record Snapshotter : Type := {
  t : T;
  name : string;
  snapshots : list snapshot;
  SnapshotErrors : bool
}.

Definition New (t : T) : Snapshotter :=
  {| t := t; name := ""; snapshots := []; SnapshotErrors := false |}.

Definition NewNamed (t : T) (name : string) : Snapshotter :=
  {| t := t; name := name; snapshots := []; SnapshotErrors := false |}.

(** How a statement list ends: it runs on, it executed [return], or it
    panicked (an index out of range, a nil pointer). *)
Inductive flow : Type := Next | Return | Panic.

(** The [range] loop of [Snapshot], from index [i] with [k] elements to go
    ([range] takes the length of the slice once, when the loop starts, so
    the lookup at [i] finds an element): each element is read from the
    backing array, normalised, and written back to the same index. *)
Fixpoint Snapshot_range (name : string) (values : loc) (i k : nat)
    (h : gmap loc (list (any other))) (t : T)
    : flow * gmap loc (list (any other)) * T :=
  match k with
  | O => (Next, h, t)
  | S k' =>
      match index h values !! i with
      | None => (Next, h, t)
      | Some value =>
          match jsonRoundTrip value with
          | Err err =>
              (Return, h,
               Errorf t "%s: error roundtripping value %v: %s"
                 [ArgString name; ArgValue value; ArgError err])
          | Ok roundtripped =>
              Snapshot_range name values (S i) k'
                (<[values := <[i := roundtripped]> (index h values)]> h) t
          end
      end
  end.

(** [s.t] after the reports of a call, and [s.snapshots = append(s.snapshots, e)]. *)
Definition with_t (s : Snapshotter) (t' : T) : Snapshotter :=
  {| t := t'; name := name s; snapshots := snapshots s;
     SnapshotErrors := SnapshotErrors s |}.

Definition append_snapshot (s : Snapshotter) (e : snapshot) : Snapshotter :=
  {| t := t s; name := name s; snapshots := snapshots s ++ [e];
     SnapshotErrors := SnapshotErrors s |}.

Definition Snapshot (name : string) (values : loc)
    (h : gmap loc (list (any other))) (s : Snapshotter)
    : gmap loc (list (any other)) * Snapshotter :=
  match Snapshot_range name values 0 (length (index h values)) h s.(t) with
  | (Next, h', t') =>
      (h', append_snapshot (with_t s t') {| Name := name; Values := values |})
  | (_, h', t') => (h', with_t s t')
  end.

Definition coerceToString (i : any other) : string :=
  match as_string i with
  | Some str => str
  | None => pretty_Sprint i
  end.

Definition diffString (a b : any other) : string :=
  fst (difflib_GetUnifiedDiffString
         {| A := difflib_SplitLines (coerceToString a);
            B := difflib_SplitLines (coerceToString b);
            FromFile := "expected";
            ToFile := "received";
            Context := 1 |}).

(** What the encoder reads when it follows [s.snapshots]: each entry's name
    and the present contents of its slice. *)
Definition load (h : gmap loc (list (any other))) (e : snapshot) : snapshot_data other :=
  SnapshotData (Name e) (index h (Values e)).

(** [for _, snapshot := range ... { names = append(names, snapshot.Name) }]
    over the captured entries and over the decoded ones; a nil pointer
    among the latter panics. *)
Definition Verify_actualNames (actual : list snapshot) : list string :=
  map Name actual.

Fixpoint Verify_expectedNames (expected : list (option (snapshot_data other)))
    : option (list string) :=
  match expected with
  | [] => Some []
  | Some e :: rest =>
      match Verify_expectedNames rest with
      | Some names => Some (data_Name e :: names)
      | None => None
      end
  | None :: _ => None
  end.

Definition rewriteHint : string :=
  "If this is intentional, you can run `go test . -rewriteSnapshots` to generate new snapshots.".

(** The body of [for i := range actual] in [Verify]. *)
Definition Verify_body (h : gmap loc (list (any other)))
    (expected : list (option (snapshot_data other)))
    (actual_i : snapshot) (i : nat) (t : T) : flow * T :=
  match expected !! i with
  | Some (Some expected_i) =>
      let expectedValue := data_Values expected_i in
      let actualValue := index h (Values actual_i) in
      let generic :=
        let diff := diffString (GoSlice expectedValue) (GoSlice actualValue) in
        if decide (diff ≠ "")
        then (Next,
              Errorf
                (Errorf t ("snapshot %s differs:" +:+ LF +:+ "%s")
                   [ArgString (Name actual_i); ArgString diff])
                rewriteHint [])
        else (Next, t) in
      if decide (length expectedValue = 1 ∧ length actualValue = 1) then
        match expectedValue !! 0 ≫= as_string with
        | Some expectedString =>
            match actualValue !! 0 ≫= as_string with
            | Some actualString =>
                let diff := diffString (GoString expectedString) (GoString actualString) in
                if decide (diff ≠ "")
                then (Return,
                      Errorf
                        (Errorf t ("snapshot %s differs:" +:+ LF +:+ "%s")
                           [ArgString (Name actual_i); ArgString diff])
                        rewriteHint [])
                else generic
            | None => generic
            end
        | None => generic
        end
      else generic
  | _ => (Panic, t)
  end.

(** The loop itself, over the entries of [actual] from index [i] on. *)
Fixpoint Verify_range (h : gmap loc (list (any other)))
    (expected : list (option (snapshot_data other)))
    (actual : list snapshot) (i : nat) (t : T) : flow * T :=
  match actual with
  | [] => (Next, t)
  | actual_i :: rest =>
      match Verify_body h expected actual_i i t with
      | (Next, t') => Verify_range h expected rest (S i) t'
      | stopped => stopped
      end
  end.

(** [Verify], with the flag [*rewrite] as an argument.  The result is how
    the call ended, the file system and the Snapshotter (whose [t] holds the
    reports). *)
Definition Verify (rewrite : bool) (h : gmap loc (list (any other)))
    (w : World) (s : Snapshotter) : flow * World * Snapshotter :=
  let t0 := Helper s.(t) in
  let name := Verify_name (T_Name s.(t)) s.(name) in
  if rewrite then
    if decide (length s.(snapshots) = 0) then
      if os_IsNotExist (os_Stat w name) then (Return, w, with_t s t0)
      else
        match os_Remove w name with
        | (w', Some err) =>
            (Return, w',
             with_t s (Errorf t0 "failed to remove the existing snapshot file %s"
                         [ArgString name]))
        | (w', None) => (Return, w', with_t s t0)
        end
    else
      match os_MkdirAll w "testdata" 493 with
      | (w1, Some err) =>
          (Return, w1,
           with_t s (Errorf t0 "error creating testdata directory: %s" [ArgError err]))
      | (w1, None) =>
          match json_MarshalIndent (map (load h) s.(snapshots)) "" "  " with
          | Err err =>
              (Return, w1,
               with_t s (Errorf t0 "error marshaling snapshots: %s" [ArgError err]))
          | Ok bs =>
              match ioutil_WriteFile w1 name bs 420 with
              | (w2, Some err) =>
                  (Return, w2,
                   with_t s (Errorf t0 "error writing snapshots: %s" [ArgError err]))
              | (w2, None) => (Next, w2, with_t s t0)
              end
          end
      end
  else
    if os_IsNotExist (os_Stat w name) && bool_decide (length s.(snapshots) = 0)
    then (Return, w, with_t s t0)
    else
      match ioutil_ReadFile w name with
      | Err err =>
          (Return, w, with_t s (Errorf t0 "error reading snapshots: %s" [ArgError err]))
      | Ok bs =>
          match json_Unmarshal_snapshots bs with
          | Err err =>
              (Return, w,
               with_t s (Errorf t0 "error unmarshaling snapshots: %s" [ArgError err]))
          | Ok expected =>
              let actual := s.(snapshots) in
              let actualNames := Verify_actualNames actual in
              match Verify_expectedNames expected with
              | None => (Panic, w, with_t s t0)
              | Some expectedNames =>
                  let diff := diffString (GoStrings expectedNames) (GoStrings actualNames) in
                  if decide (diff ≠ "")
                  then (Return, w,
                        with_t s (Errorf t0 ("snapshot names differ:" +:+ LF +:+ "%s")
                                    [ArgString diff]))
                  else
                    match Verify_range h expected actual 0 t0 with
                    | (fl, t') => (fl, w, with_t s t')
                    end
              end
          end
      end.

End Snapshotter.

(** ** What the theorems assume of the imported functions *)

(** [utf8.DecodeRuneInString]: what the first byte of an encoding requires
    of the bytes after it (how many, and the range of the next one). *)
Definition utf8_first (b : N) : option (nat * N * N) :=
  if (b <=? 127)%N then Some (0, 128%N, 191%N)
  else if (194 <=? b)%N && (b <=? 223)%N then Some (1, 128%N, 191%N)
  else if (b =? 224)%N then Some (2, 160%N, 191%N)
  else if (225 <=? b)%N && (b <=? 236)%N then Some (2, 128%N, 191%N)
  else if (b =? 237)%N then Some (2, 128%N, 159%N)
  else if (238 <=? b)%N && (b <=? 239)%N then Some (2, 128%N, 191%N)
  else if (b =? 240)%N then Some (3, 144%N, 191%N)
  else if (241 <=? b)%N && (b <=? 243)%N then Some (3, 128%N, 191%N)
  else if (b =? 244)%N then Some (3, 128%N, 143%N)
  else None.

Fixpoint utf8_continues (s : string) (need : nat) (lo hi : N) {struct need} : bool :=
  match need with
  | O => true
  | S k =>
      match s with
      | EmptyString => false
      | String c rest =>
          (lo <=? N_of_ascii c)%N && (N_of_ascii c <=? hi)%N
          && utf8_continues rest k 128 191
      end
  end.

(** [utf8.ValidString]: the bytes are a sequence of well-formed UTF-8
    encodings.  [need] continuation bytes are still expected, the next of
    them within [lo..hi]. *)
Fixpoint utf8_Valid_from (s : string) (need : nat) (lo hi : N) : bool :=
  match s with
  | EmptyString => bool_decide (need = 0)
  | String c rest =>
      match need with
      | S k =>
          (lo <=? N_of_ascii c)%N && (N_of_ascii c <=? hi)%N
          && utf8_Valid_from rest k 128 191
      | O =>
          match utf8_first (N_of_ascii c) with
          | Some (need', lo', hi') => utf8_Valid_from rest need' lo' hi'
          | None => false
          end
      end
  end.

Definition utf8_ValidString (s : string) : bool :=
  utf8_Valid_from s 0 128 191.

Section Laws.
Context `{Env}.

(** A value is normalised when it is what decoding into [interface{}]
    produced from some input. *)
Definition normalized (v : any other) : Prop :=
  ∃ bs, json_Unmarshal bs = Ok v.

(** encoding/json: what decoding into [interface{}] produces is encoded
    without error, and decodes to itself. *)
Definition json_generic_stable : Prop :=
  ∀ bs v, json_Unmarshal bs = Ok v →
    ∃ bs', json_Marshal v = Ok bs' ∧ json_Unmarshal bs' = Ok v.

(** encoding/json on the golden file: entries whose names are valid UTF-8
    (other bytes are replaced by U+FFFD when a string is encoded) and whose
    values are normalised decode to themselves. *)
Definition json_snapshots_stable : Prop :=
  ∀ (entries : list (snapshot_data other)) bs,
    Forall (λ e, utf8_ValidString (data_Name e) = true
                 ∧ Forall normalized (data_Values e)) entries →
    json_MarshalIndent entries "" "  " = Ok bs →
    json_Unmarshal_snapshots bs = Ok (map Some entries).

(** go-difflib: the unified diff of two line sequences is the empty string
    exactly when the sequences are equal. *)
Definition difflib_empty_iff_equal : Prop :=
  ∀ a b : list string,
    fst (difflib_GetUnifiedDiffString
           {| A := a; B := b; FromFile := "expected"; ToFile := "received";
              Context := 1 |}) = ""
    ↔ a = b.

(** go-difflib: a text is determined by its lines. *)
Definition difflib_SplitLines_inj : Prop :=
  ∀ s1 s2 : string, difflib_SplitLines s1 = difflib_SplitLines s2 → s1 = s2.

(** godebug/pretty: different [[]string] values are rendered differently. *)
Definition pretty_Sprint_names_inj : Prop :=
  ∀ l1 l2 : list string,
    pretty_Sprint (GoStrings l1) = pretty_Sprint (GoStrings l2) → l1 = l2.

(** The file system: a file that was written is read back, and a file that
    was removed is reported as not existing. *)
Definition read_after_write : Prop :=
  ∀ w path bs perm w',
    ioutil_WriteFile w path bs perm = (w', None) →
    ioutil_ReadFile w' path = Ok bs.

Definition stat_after_remove : Prop :=
  ∀ w path w',
    os_Remove w path = (w', None) →
    os_IsNotExist (os_Stat w' path) = true.

(** Every entry's slice holds normalised values. *)
Definition all_normalized (h : gmap loc (list (any other)))
    (entries : list snapshot) : Prop :=
  Forall (λ e, Forall normalized (index h (Values e))) entries.

(** A run of capture calls [Snapshot(name, values...)], in order. *)
Fixpoint run (calls : list (string * loc))
    (h : gmap loc (list (any other))) (s : Snapshotter)
    : gmap loc (list (any other)) * Snapshotter :=
  match calls with
  | [] => (h, s)
  | (name, values) :: rest =>
      let '(h', s') := Snapshot name values h s in
      run rest h' s'
  end.

End Laws.

(** ** An executable instance of the collaborators

    A small stand-in for the imported packages on which the model runs:
    JSON documents as trees, a file system as a finite map, a diff that is
    empty on equal inputs.  The theorems above it hold for every [Env] that
    satisfies their laws; this one is used to evaluate [Snapshot] and
    [Verify] on concrete inputs. *)

(** The replacement character U+FFFD, encoded. *)
Definition utf8_RuneError : string :=
  String (ascii_of_nat 239) (String (ascii_of_nat 191) (String (ascii_of_nat 189) "")).

(** The coercion to valid UTF-8 that encoding/json applies to a string it
    encodes or decodes: each byte that does not start a well-formed
    encoding becomes U+FFFD.  [keep] bytes of an accepted encoding are still
    to be copied. *)
Fixpoint json_coerce_from (s : string) (keep : nat) : string :=
  match s with
  | EmptyString => EmptyString
  | String c rest =>
      match keep with
      | S k => String c (json_coerce_from rest k)
      | O =>
          match utf8_first (N_of_ascii c) with
          | Some (need, lo, hi) =>
              if utf8_continues rest need lo hi
              then String c (json_coerce_from rest need)
              else utf8_RuneError +:+ json_coerce_from rest 0
          | None => utf8_RuneError +:+ json_coerce_from rest 0
          end
      end
  end.

Definition json_coerce (s : string) : string := json_coerce_from s 0.

(** A JSON document. *)
#[local] Set Warnings "-register-all".
Inductive json : Type :=
| JNull
| JNumber (z : Z)
| JString (s : string)
| JArray (l : list json)
| JObject (fields : list (string * json)).

(** The dynamic types of the instance besides strings and slices: [nil],
    an [int], a [float64] with an integral value, a channel. *)
Inductive ref_other : Type :=
| Nil
| Int (z : Z)
| Float64 (z : Z)
| Chan.

Inductive ref_error : Type :=
| ErrNotExist
| ErrPermission
| ErrUnsupportedType
| ErrUnmarshalType.

(** A loop that stops at the first error. *)
Definition traverse {E X Y : Type} (f : X → result E Y) : list X → result E (list Y) :=
  fix go (l : list X) : result E (list Y) :=
    match l with
    | [] => Ok []
    | x :: rest =>
        match f x with
        | Err e => Err e
        | Ok y =>
            match go rest with
            | Err e => Err e
            | Ok ys => Ok (y :: ys)
            end
        end
    end.

Fixpoint ref_Marshal (v : any ref_other) : result ref_error json :=
  match v with
  | GoString s => Ok (JString (json_coerce s))
  | GoStrings l => Ok (JArray (map (λ s, JString (json_coerce s)) l))
  | GoSlice l =>
      match traverse ref_Marshal l with
      | Err e => Err e
      | Ok js => Ok (JArray js)
      end
  | GoOther Nil => Ok JNull
  | GoOther (Int z) => Ok (JNumber z)
  | GoOther (Float64 z) => Ok (JNumber z)
  | GoOther Chan => Err ErrUnsupportedType
  end.

(** Decoding into an [interface{}]; objects (Go maps) are outside this
    instance. *)
Fixpoint ref_Unmarshal (j : json) : result ref_error (any ref_other) :=
  match j with
  | JNull => Ok (GoOther Nil)
  | JNumber z => Ok (GoOther (Float64 z))
  | JString s => Ok (GoString (json_coerce s))
  | JArray l =>
      match traverse ref_Unmarshal l with
      | Err e => Err e
      | Ok vs => Ok (GoSlice vs)
      end
  | JObject _ => Err ErrUnmarshalType
  end.

(** The stability law of encoding/json at one document. *)
Definition ref_stable_at (j : json) : Prop :=
  ∀ v, ref_Unmarshal j = Ok v →
    ∃ j', ref_Marshal v = Ok j' ∧ ref_Unmarshal j' = Ok v.

Definition ref_Marshal_snapshot (e : snapshot_data ref_other) : result ref_error json :=
  match traverse ref_Marshal (data_Values e) with
  | Err err => Err err
  | Ok js =>
      Ok (JObject [("Name", JString (json_coerce (data_Name e))); ("Values", JArray js)])
  end.

Definition ref_MarshalIndent (entries : list (snapshot_data ref_other))
    (prefix indent : string) : result ref_error json :=
  match traverse ref_Marshal_snapshot entries with
  | Err err => Err err
  | Ok js => Ok (JArray js)
  end.

Fixpoint ref_field (key : string) (fields : list (string * json)) : option json :=
  match fields with
  | [] => None
  | (k, j) :: rest => if String.eqb k key then Some j else ref_field key rest
  end.

(** Decoding one element of the golden file into a [*snapshot]. *)
Definition ref_Unmarshal_snapshot (j : json)
    : result ref_error (option (snapshot_data ref_other)) :=
  match j with
  | JNull => Ok None
  | JObject fields =>
      match
        match ref_field "Name" fields with
        | None | Some JNull => Ok ""
        | Some (JString s) => Ok (json_coerce s)
        | Some _ => Err ErrUnmarshalType
        end
      with
      | Err err => Err err
      | Ok n =>
          match
            match ref_field "Values" fields with
            | None | Some JNull => Ok []
            | Some (JArray l) => traverse ref_Unmarshal l
            | Some _ => Err ErrUnmarshalType
            end
          with
          | Err err => Err err
          | Ok vs => Ok (Some (SnapshotData n vs))
          end
      end
  | _ => Err ErrUnmarshalType
  end.

Definition ref_Unmarshal_snapshots (j : json)
    : result ref_error (list (option (snapshot_data ref_other))) :=
  match j with
  | JArray l => traverse ref_Unmarshal_snapshot l
  | JNull => Ok []
  | _ => Err ErrUnmarshalType
  end.

(** Rendering: a string between double quotes with [\ ] before each double
    quote and backslash; a slice one element per line. *)
Definition DQUOTE : ascii := ascii_of_nat 34.

Fixpoint ref_quoted (s rest : string) : string :=
  match s with
  | EmptyString => String DQUOTE rest
  | String c s' =>
      if decide (c = DQUOTE ∨ c = "\"%char)
      then String "\"%char (String c (ref_quoted s' rest))
      else String c (ref_quoted s' rest)
  end.

Definition ref_quote_to (s rest : string) : string :=
  String DQUOTE (ref_quoted s rest).

Definition ref_Sprint_names (l : list string) : string :=
  String "["%char (fold_right (λ s rest, ref_quote_to s ("," +:+ LF +:+ rest)) "]" l).

Definition ref_Sprint_Z (z : Z) : string :=
  match z with
  | Z0 => "0"
  | Zpos p => pretty (Npos p)
  | Zneg p => "-" +:+ pretty (Npos p)
  end.

Fixpoint ref_Sprint_to (v : any ref_other) (rest : string) : string :=
  match v with
  | GoString s => ref_quote_to s rest
  | GoStrings l => ref_Sprint_names l +:+ rest
  | GoSlice l =>
      String "["%char
        (fold_right (λ x r, ref_Sprint_to x ("," +:+ LF +:+ r)) ("]" +:+ rest) l)
  | GoOther Nil => "nil" +:+ rest
  | GoOther (Int z) => ref_Sprint_Z z +:+ rest
  | GoOther (Float64 z) => ref_Sprint_Z z +:+ rest
  | GoOther Chan => "(chan int)" +:+ rest
  end.

Definition ref_Sprint (v : any ref_other) : string := ref_Sprint_to v "".

(** [difflib.SplitLines]: the text cut after each line feed, with a line
    feed added to the last piece. *)
Fixpoint ref_SplitLines (s : string) : list string :=
  match s with
  | EmptyString => [LF]
  | String c rest =>
      if decide (c = ascii_of_nat 10) then String c "" :: ref_SplitLines rest
      else
        match ref_SplitLines rest with
        | line :: lines => String c line :: lines
        | [] => [String c LF]
        end
  end.

Fixpoint ref_concat (lines : list string) : string :=
  match lines with
  | [] => ""
  | line :: rest => line +:+ ref_concat rest
  end.

(** A diff that is empty on equal inputs and otherwise lists, under the
    two file names, every line of [A] as removed and every line of [B] as
    added. *)
Definition ref_GetUnifiedDiffString (d : UnifiedDiff) : string * option ref_error :=
  if decide (A d = B d) then ("", None)
  else ("--- " +:+ FromFile d +:+ LF +:+ "+++ " +:+ ToFile d +:+ LF
          +:+ ref_concat (map (String.append "-") (A d))
          +:+ ref_concat (map (String.append "+") (B d)),
        None).

(** The file system: the files by path, and the paths that may not be
    written or removed. *)
Record ref_World : Type := {
  files : gmap string json;
  locked : gset string
}.

Definition ref_Stat (w : ref_World) (path : string) : option ref_error :=
  match files w !! path with
  | Some _ => None
  | None => Some ErrNotExist
  end.

Definition ref_IsNotExist (err : option ref_error) : bool :=
  match err with
  | Some ErrNotExist => true
  | _ => false
  end.

Definition ref_Remove (w : ref_World) (path : string) : ref_World * option ref_error :=
  if decide (path ∈ locked w) then (w, Some ErrPermission)
  else
    match files w !! path with
    | None => (w, Some ErrNotExist)
    | Some _ => ({| files := delete path (files w); locked := locked w |}, None)
    end.

Definition ref_MkdirAll (w : ref_World) (path : string) (perm : Z)
    : ref_World * option ref_error :=
  if decide (path ∈ locked w) then (w, Some ErrPermission) else (w, None).

Definition ref_WriteFile (w : ref_World) (path : string) (bs : json) (perm : Z)
    : ref_World * option ref_error :=
  if decide (path ∈ locked w) then (w, Some ErrPermission)
  else ({| files := <[path := bs]> (files w); locked := locked w |}, None).

Definition ref_ReadFile (w : ref_World) (path : string) : result ref_error json :=
  match files w !! path with
  | Some bs => Ok bs
  | None => Err ErrNotExist
  end.

Definition ref_Env : Env := {|
  other := ref_other;
  error := ref_error;
  bytes := json;
  World := ref_World;
  json_Marshal := ref_Marshal;
  json_Unmarshal := ref_Unmarshal;
  json_MarshalIndent := ref_MarshalIndent;
  json_Unmarshal_snapshots := ref_Unmarshal_snapshots;
  pretty_Sprint := ref_Sprint;
  difflib_SplitLines := ref_SplitLines;
  difflib_GetUnifiedDiffString := ref_GetUnifiedDiffString;
  os_Stat := ref_Stat;
  os_IsNotExist := ref_IsNotExist;
  os_Remove := ref_Remove;
  os_MkdirAll := ref_MkdirAll;
  ioutil_WriteFile := ref_WriteFile;
  ioutil_ReadFile := ref_ReadFile
|}.

(** A test handle without reports, and the empty file system. *)
Definition ref_T (test : string) : @T ref_Env :=
  {| T_Name := test; T_errors := []; T_helpers := 0 |}.

Definition ref_empty : ref_World := {| files := ∅; locked := ∅ |}.

(** Inputs on which the instance is run: a store of argument slices, a
    Snapshotter that has captured two entries, golden files. *)
Definition ref_store : gmap loc (list (any ref_other)) :=
  {[ 1%positive := [GoOther (Int 1); GoString "hello"];
     2%positive := [GoString "line one"];
     3%positive := [GoOther (Int 1); GoOther Chan; GoOther (Int 2)];
     4%positive := [GoOther (Float64 3)];
     5%positive := [GoOther (Float64 4)] ]}.

Definition ref_captured : @Snapshotter ref_Env :=
  {| t := ref_T "TestA";
     name := "";
     snapshots := [{| Name := "a"; Values := 4%positive |};
                   {| Name := "b"; Values := 5%positive |}];
     SnapshotErrors := false |}.

Definition ref_golden (n1 : string) (v1 : Z) (n2 : string) (v2 : Z) : json :=
  JArray
    [JObject [("Name", JString n1); ("Values", JArray [JNumber v1])];
     JObject [("Name", JString n2); ("Values", JArray [JNumber v2])]].

Definition ref_with_file (path : string) (content : json) (readonly : gset string)
    : ref_World :=
  {| files := {[ path := content ]}; locked := readonly |}.

(** A name that is not valid UTF-8: the single byte 0xFF. *)
Definition ref_bad_name : string := String (ascii_of_nat 255) "".

(** ** Vocabulary of the further properties *)

(** Whether the byte [c] occurs in [s]. *)
Fixpoint has_byte (c : ascii) (s : string) : bool :=
  match s with
  | EmptyString => false
  | String x rest => bool_decide (x = c) || has_byte c rest
  end.

(** The two reports the loop of [Verify] files for an entry whose values
    differ: the diff under the entry's name, then the hint. *)
Definition mismatch_reports `{Env} (entry diff : string) : list report :=
  [Report ("snapshot %s differs:" +:+ LF +:+ "%s") [ArgString entry; ArgString diff];
   Report rewriteHint []].

(** ** encoding/json on generic values *)

(** Modelled from the spec: [json.Marshal] and [json.Unmarshal] of
    encoding/json, which [jsonRoundTrip] calls and the repository does not
    contain.  The specification (4.1, 9) has the normaliser serialise a
    value to the interchange format and read it back into the generic
    representation: null, boolean, number, string, sequence, mapping.  The
    model follows the package's documentation on that representation.

    A document is the tree a JSON text denotes; a number is its literal. *)
#[local] Set Warnings "-register-all".
Inductive jdoc (number : Type) : Type :=
| DNull
| DBool (b : bool)
| DNumber (n : number)
| DString (s : string)
| DArray (l : list (jdoc number))
| DObject (fields : list (string * jdoc number)).
Arguments DNull {number}.
Arguments DBool {number} b.
Arguments DNumber {number} n.
Arguments DString {number} s.
Arguments DArray {number} l.
Arguments DObject {number} fields.

(** The dynamic types besides [string], [[]string] and [[]interface{}]:
    what decoding into an [interface{}] produces ([nil], [bool],
    [float64], [map[string]interface{}], a map being its bindings in
    increasing key order), and [raw], every other Go type (integers,
    structs, pointers, channels, types with their own [MarshalJSON]). *)
Inductive go_other (raw float64 : Type) : Type :=
| GoNil
| GoBool (b : bool)
| GoFloat64 (f : float64)
| GoMap (m : list (string * any (go_other raw float64)))
| GoRaw (r : raw).
Arguments GoNil {raw float64}.
Arguments GoBool {raw float64} b.
Arguments GoFloat64 {raw float64} f.
Arguments GoMap {raw float64} m.
Arguments GoRaw {raw float64} r.

(** The order of map keys: bytewise, as Go compares strings. *)
Definition key_lt (k k' : string) : Prop := String.le k k' ∧ k ≠ k'.

(** [m[k] = v] on a map kept in increasing key order. *)
Fixpoint map_insert {V : Type} (k : string) (v : V) (m : list (string * V))
    : list (string * V) :=
  match m with
  | [] => [(k, v)]
  | (k', v') :: rest =>
      if decide (k = k') then (k, v) :: rest
      else if decide (String.le k k') then (k, v) :: (k', v') :: rest
      else (k', v') :: map_insert k v rest
  end.

Fixpoint sorted_keys {V : Type} (m : list (string * V)) : Prop :=
  match m with
  | [] => True
  | kv :: rest => Forall (λ x, key_lt kv.1 x.1) rest ∧ sorted_keys rest
  end.

Section Codec.
Context {raw float64 number E W : Type}.

(** strconv, through which encoding/json writes and reads a [float64]
    ([FormatFloat] with the shortest digits, refused for NaN and the
    infinities; [ParseFloat], refused when the literal is out of range),
    and [json.Marshal] on a value of any other type. *)
Context (strconv_FormatFloat : float64 → result E number).
Context (strconv_ParseFloat : number → result E float64).
Context (Marshal_raw : raw → result E (jdoc number)).

(** [json.Marshal]: a string is written coerced to valid UTF-8; a slice
    element by element; a map key by key in increasing order; the first
    error ends the encoding. *)
Definition Marshal_any (Marshal_o : go_other raw float64 → result E (jdoc number))
    : any (go_other raw float64) → result E (jdoc number) :=
  fix go (v : any (go_other raw float64)) : result E (jdoc number) :=
    match v with
    | GoString s => Ok (DString (json_coerce s))
    | GoStrings l => Ok (DArray (map (λ s, DString (json_coerce s)) l))
    | GoSlice l =>
        match traverse go l with
        | Ok js => Ok (DArray js)
        | Err e => Err e
        end
    | GoOther o => Marshal_o o
    end.

Fixpoint Marshal_other (o : go_other raw float64) : result E (jdoc number) :=
  match o with
  | GoNil => Ok DNull
  | GoBool b => Ok (DBool b)
  | GoFloat64 f =>
      match strconv_FormatFloat f with
      | Ok n => Ok (DNumber n)
      | Err e => Err e
      end
  | GoMap m =>
      match
        traverse (λ kv : string * any (go_other raw float64),
                    match Marshal_any Marshal_other kv.2 with
                    | Ok j => Ok (json_coerce kv.1, j)
                    | Err e => Err e
                    end) m
      with
      | Ok fields => Ok (DObject fields)
      | Err e => Err e
      end
  | GoRaw r => Marshal_raw r
  end.

Definition go_Marshal : any (go_other raw float64) → result E (jdoc number) :=
  Marshal_any Marshal_other.

(** [json.Unmarshal] into an [interface{}]: a number becomes a [float64],
    a string is coerced to valid UTF-8, an array becomes an
    [[]interface{}], an object a [map[string]interface{}] in which a later
    binding of a key replaces an earlier one. *)
Fixpoint go_Unmarshal (j : jdoc number) : result E (any (go_other raw float64)) :=
  match j with
  | DNull => Ok (GoOther GoNil)
  | DBool b => Ok (GoOther (GoBool b))
  | DNumber n =>
      match strconv_ParseFloat n with
      | Ok f => Ok (GoOther (GoFloat64 f))
      | Err e => Err e
      end
  | DString s => Ok (GoString (json_coerce s))
  | DArray l =>
      match traverse go_Unmarshal l with
      | Ok vs => Ok (GoSlice vs)
      | Err e => Err e
      end
  | DObject fields =>
      match
        traverse (λ kj : string * jdoc number,
                    match go_Unmarshal kj.2 with
                    | Ok v => Ok (json_coerce kj.1, v)
                    | Err e => Err e
                    end) fields
      with
      | Ok kvs =>
          Ok (GoOther (GoMap (fold_left (λ m kv, map_insert kv.1 kv.2 m) kvs [])))
      | Err e => Err e
      end
  end.

(** strconv: a [float64] that [ParseFloat] returned is formatted without
    error, and its shortest digits parse back to it. *)
Definition strconv_stable : Prop :=
  ∀ n f, strconv_ParseFloat n = Ok f →
    ∃ n', strconv_FormatFloat f = Ok n' ∧ strconv_ParseFloat n' = Ok f.

(** Encoding a value and decoding the result gives the value back. *)
Definition go_stable (v : any (go_other raw float64)) : Prop :=
  ∃ j, go_Marshal v = Ok j ∧ go_Unmarshal j = Ok v.

(** The collaborators with this encoding/json; the fields [jsonRoundTrip]
    does not use are arbitrary. *)
Context (MarshalIndent_snapshots :
           list (snapshot_data (go_other raw float64)) → string → string →
           result E (jdoc number)).
Context (Unmarshal_snapshots :
           jdoc number →
           result E (list (option (snapshot_data (go_other raw float64))))).
Context (Sprint : any (go_other raw float64) → string).
Context (SplitLines : string → list string).
Context (GetUnifiedDiffString : UnifiedDiff → string * option E).
Context (Stat : W → string → option E).
Context (IsNotExist : option E → bool).
Context (Remove : W → string → W * option E).
Context (MkdirAll : W → string → Z → W * option E).
Context (WriteFile : W → string → jdoc number → Z → W * option E).
Context (ReadFile : W → string → result E (jdoc number)).

Definition go_Env : Env := {|
  other := go_other raw float64;
  error := E;
  bytes := jdoc number;
  World := W;
  json_Marshal := go_Marshal;
  json_Unmarshal := go_Unmarshal;
  json_MarshalIndent := MarshalIndent_snapshots;
  json_Unmarshal_snapshots := Unmarshal_snapshots;
  pretty_Sprint := Sprint;
  difflib_SplitLines := SplitLines;
  difflib_GetUnifiedDiffString := GetUnifiedDiffString;
  os_Stat := Stat;
  os_IsNotExist := IsNotExist;
  os_Remove := Remove;
  os_MkdirAll := MkdirAll;
  ioutil_WriteFile := WriteFile;
  ioutil_ReadFile := ReadFile
|}.

End Codec.

(** An executable strconv on integers: literals are integers, a [float64]
    is an integer that binary64 represents.  [round53] rounds an integer
    to 53 significant bits, ties to the even significand, as [ParseFloat]
    rounds a literal. *)
Definition round53 (z : Z) : Z :=
  let a := Z.abs z in
  if (a <? 2 ^ 53)%Z then z
  else
    let k := (Z.log2 a - 52)%Z in
    let q := (a / 2 ^ k)%Z in
    let r := (a mod 2 ^ k)%Z in
    let q' := if (2 ^ (k - 1) <? r)%Z || ((r =? 2 ^ (k - 1))%Z && Z.odd q)
              then (q + 1)%Z else q in
    (Z.sgn z * (q' * 2 ^ k))%Z.

Definition int_ParseFloat (n : Z) : result ref_error Z :=
  if (Z.abs (round53 n) <? 2 ^ 1024)%Z then Ok (round53 n) else Err ErrUnmarshalType.

Definition int_FormatFloat (f : Z) : result ref_error Z := Ok f.

(** Raw values of the instance: a Go integer, written as its decimal
    literal, and a channel, which [json.Marshal] refuses. *)
Inductive int_raw : Type :=
| RawInt (z : Z)
| RawChan.

Definition int_Marshal_raw (r : int_raw) : result ref_error (jdoc Z) :=
  match r with
  | RawInt z => Ok (DNumber z)
  | RawChan => Err ErrUnsupportedType
  end.

(** The instance; of the fields [jsonRoundTrip] does not use, the diff is
    that of [ref_Env] and the others are the simplest of their type. *)
Definition int_Env : Env :=
  go_Env (W := unit) int_FormatFloat int_ParseFloat int_Marshal_raw
    (λ _ _ _, Err ErrUnsupportedType) (λ _, Err ErrUnmarshalType)
    (λ _, "") ref_SplitLines ref_GetUnifiedDiffString
    (λ _ _, Some ErrNotExist) ref_IsNotExist
    (λ w _, (w, Some ErrNotExist)) (λ w _ _, (w, Some ErrPermission))
    (λ w _ _ _, (w, Some ErrPermission)) (λ _ _, Err ErrNotExist).

(** * Properties *)

(** ** The golden file's path *)

Lemma Replace_from_byte (old new c : ascii) (rest : string) :
  Replace_from (String old "") (String new "") (String c rest) 0
  = String (if decide (c = old) then new else c)
      (Replace_from (String old "") (String new "") rest 0).
Proof.
  cbn [Replace_from String.prefix String.length].
  destruct (ascii_dec old c) as [->|Hne].
  - rewrite decide_True by reflexivity. now destruct rest.
  - now rewrite decide_False by congruence.
Qed.

Lemma sanitize_Replace (s : string) :
  strings_Replace (strings_Replace s "/" "-") ":" "-" = sanitize s.
Proof.
  unfold strings_Replace.
  induction s as [|c rest IH]; [reflexivity|].
  rewrite !Replace_from_byte, IH. cbn [sanitize]. f_equal.
  unfold sanitize_byte.
  destruct (decide (c = "/"%char)) as [->|?]; [reflexivity|].
  destruct (decide (c = ":"%char)); reflexivity.
Qed.

Lemma append_cons (x : ascii) (a b : string) :
  String x a +:+ b = String x (a +:+ b).
Proof. reflexivity. Qed.

Lemma append_length (a b : string) :
  String.length (a +:+ b) = String.length a + String.length b.
Proof.
  induction a as [|x a IH]; [reflexivity|].
  rewrite append_cons. simpl. now rewrite IH.
Qed.

(** Cancellation of a common ending. *)
Lemma append_cancel_r (a b c : string) : a +:+ c = b +:+ c → a = b.
Proof.
  revert b. induction a as [|x a IH]; intros [|y b] Heq;
    rewrite ?append_cons in Heq; change ("" +:+ c) with c in Heq.
  - reflexivity.
  - apply (f_equal String.length) in Heq. simpl in Heq.
    rewrite append_length in Heq. lia.
  - apply (f_equal String.length) in Heq. simpl in Heq.
    rewrite append_length in Heq. lia.
  - injection Heq as -> Heq. f_equal. now apply IH.
Qed.

(** The path, with the replacements read as [sanitize] and the join
    written out. *)
Lemma Verify_name_unfold (t_Name s_name : string) :
  Verify_name t_Name s_name
  = "testdata/" +:+ sanitize t_Name
       +:+ (if decide (s_name = "") then "" else "_" +:+ sanitize s_name)
       +:+ ".snapshots.json".
Proof.
  unfold Verify_name, Verify_nameSuffix. rewrite !sanitize_Replace.
  destruct (decide (s_name = "")) as [->|Hne].
  - now rewrite decide_False by auto.
  - now rewrite decide_True by assumption.
Qed.

Example Verify_name_subtest :
  Verify_name "TestA/b" "x:y" = "testdata/TestA-b_x-y.snapshots.json"
  ∧ Verify_name "TestA" "" = "testdata/TestA.snapshots.json".
Proof. split; reflexivity. Qed.

(** C9.  The path [Verify] uses is [testdata] joined with the sanitised
    test identifier, then [_] and the sanitised discriminator exactly when
    the discriminator is not empty, then [.snapshots.json]; sanitising
    replaces every [/] and every [:] by [-].  On a [/]-separated file
    system the join is [testdata/] followed by that file name. *)
Theorem Verify_name_derivation (t_Name s_name : string) :
  Verify_name t_Name s_name
  = filepath_Join "testdata"
      (sanitize t_Name
         +:+ (if decide (s_name = "") then "" else "_" +:+ sanitize s_name)
         +:+ ".snapshots.json")
  ∧ Verify_name t_Name s_name
    = "testdata/" +:+ sanitize t_Name
         +:+ (if decide (s_name = "") then "" else "_" +:+ sanitize s_name)
         +:+ ".snapshots.json".
Proof.
  split; [|apply Verify_name_unfold].
  rewrite Verify_name_unfold. reflexivity.
Qed.

(** C2, as the code has it.  Two Snapshotters of one test derive the same
    golden file exactly when their discriminators are equal after
    sanitising; in particular two discriminators that differ after
    sanitising (any two different ones without [/] and [:]) derive
    different files. *)
Theorem Verify_name_discriminator (t_Name d1 d2 : string) :
  Verify_name t_Name d1 = Verify_name t_Name d2 ↔ sanitize d1 = sanitize d2.
Proof.
  rewrite !Verify_name_unfold.
  split.
  - intros Heq.
    apply (inj (String.app "testdata/")) in Heq.
    apply (inj (String.app (sanitize t_Name))) in Heq.
    apply append_cancel_r in Heq.
    destruct (decide (d1 = "")) as [->|H1], (decide (d2 = "")) as [->|H2].
    + reflexivity.
    + discriminate.
    + discriminate.
    + now injection Heq.
  - intros Heq.
    destruct (decide (d1 = "")) as [->|H1], (decide (d2 = "")) as [->|H2].
    + reflexivity.
    + destruct d2; [congruence|discriminate].
    + destruct d1; [congruence|discriminate].
    + now rewrite Heq.
Qed.

(** C2, as stated, fails: [a/b] and [a-b] are different discriminators of
    the test [TestX] and share one golden file. *)
Lemma Verify_name_not_injective :
  "a/b" ≠ "a-b" ∧ Verify_name "TestX" "a/b" = Verify_name "TestX" "a-b".
Proof. split; [discriminate|reflexivity]. Qed.

(** ** Snapshot *)

Section SnapshotProperties.
Context `{Env}.

Implicit Types (h : gmap loc (list (any other))) (s : Snapshotter).

Lemma index_insert_eq h (values : loc) (vs : list (any other)) :
  index (<[values := vs]> h) values = vs.
Proof. unfold index. now rewrite lookup_insert_eq. Qed.

Lemma index_insert_ne h (values l : loc) (vs : list (any other)) :
  l ≠ values → index (<[values := vs]> h) l = index h l.
Proof. intros Hne. unfold index. now rewrite lookup_insert_ne. Qed.

(** The loop when every remaining value normalises: it runs to its end,
    reports nothing, and has replaced each value by its normal form. *)
Lemma Snapshot_range_all name (values : loc) (todo : list (any other)) :
  ∀ (done rs : list (any other)) h (t0 : T),
    index h values = done ++ todo →
    Forall2 (λ v r, jsonRoundTrip v = Ok r) todo rs →
    ∃ h',
      Snapshot_range name values (length done) (length todo) h t0 = (Next, h', t0)
      ∧ index h' values = done ++ rs
      ∧ ∀ l, l ≠ values → h' !! l = h !! l.
Proof.
  induction todo as [|v todo IH]; intros done rs h t0 Hidx Hall.
  - apply Forall2_nil_inv_l in Hall as ->. exists h. now rewrite Hidx.
  - apply Forall2_cons_inv_l in Hall as (r & rs' & Hr & Hall & ->).
    cbn [Snapshot_range length].
    rewrite Hidx, list_lookup_middle by reflexivity. rewrite Hr.
    destruct (IH (done ++ [r]) rs'
                (<[values := <[length done := r]> (done ++ v :: todo)]> h) t0)
      as (h' & Hrun & Hidx' & Hframe).
    + rewrite index_insert_eq, insert_app_r_alt by lia.
      rewrite Nat.sub_diag. cbn. now rewrite <- app_assoc.
    + assumption.
    + exists h'. rewrite length_app, Nat.add_1_r in Hrun. split; [exact Hrun|].
      split; [now rewrite Hidx', <- app_assoc|].
      intros l Hne. rewrite Hframe by assumption. now rewrite lookup_insert_ne.
Qed.

(** The loop when the value after [pre] is the first that does not
    normalise: it stops there with one report, having replaced [pre]. *)
Lemma Snapshot_range_first_failure name (values : loc)
    (pre : list (any other)) (v : any other) (post : list (any other)) (err : error) :
  ∀ (done pre' : list (any other)) h (t0 : T),
    index h values = done ++ pre ++ v :: post →
    Forall2 (λ x r, jsonRoundTrip x = Ok r) pre pre' →
    jsonRoundTrip v = Err err →
    ∃ h',
      Snapshot_range name values (length done) (length (pre ++ v :: post)) h t0
      = (Return, h',
         Errorf t0 "%s: error roundtripping value %v: %s"
           [ArgString name; ArgValue v; ArgError err])
      ∧ index h' values = done ++ pre' ++ v :: post
      ∧ ∀ l, l ≠ values → h' !! l = h !! l.
Proof.
  induction pre as [|x pre IH]; intros done pre' h t0 Hidx Hall Herr.
  - apply Forall2_nil_inv_l in Hall as ->. exists h.
    cbn [app length Snapshot_range] in *.
    rewrite Hidx, list_lookup_middle by reflexivity. now rewrite Herr.
  - apply Forall2_cons_inv_l in Hall as (r & rs' & Hr & Hall & ->).
    cbn [app length Snapshot_range] in *.
    rewrite Hidx, list_lookup_middle by reflexivity. rewrite Hr.
    destruct (IH (done ++ [r]) rs'
                (<[values := <[length done := r]> (done ++ x :: pre ++ v :: post)]> h) t0)
      as (h' & Hrun & Hidx' & Hframe).
    + rewrite index_insert_eq, insert_app_r_alt by lia.
      rewrite Nat.sub_diag. cbn. now rewrite <- app_assoc.
    + assumption.
    + assumption.
    + exists h'. rewrite length_app, Nat.add_1_r in Hrun. split; [exact Hrun|].
      split; [now rewrite Hidx', <- app_assoc|].
      intros l Hne. rewrite Hframe by assumption. now rewrite lookup_insert_ne.
Qed.

(** C5.  [Snapshot] is all or nothing.  When some value of the call does
    not normalise, the first such value is reported with the entry's name
    and the error, and [s.snapshots] is what it was; when every value
    normalises, nothing is reported and exactly one entry, with the call's
    name and the normalised values, is appended at the end. *)
Theorem Snapshot_all_or_nothing name (values : loc) h s :
  (∀ pre v post pre' err,
      index h values = pre ++ v :: post →
      Forall2 (λ x r, jsonRoundTrip x = Ok r) pre pre' →
      jsonRoundTrip v = Err err →
      snapshots (Snapshot name values h s).2 = snapshots s
      ∧ T_errors (t (Snapshot name values h s).2)
        = T_errors (t s)
            ++ [Report "%s: error roundtripping value %v: %s"
                  [ArgString name; ArgValue v; ArgError err]])
  ∧ (∀ rs,
      Forall2 (λ x r, jsonRoundTrip x = Ok r) (index h values) rs →
      snapshots (Snapshot name values h s).2
      = snapshots s ++ [{| Name := name; Values := values |}]
      ∧ index (Snapshot name values h s).1 values = rs
      ∧ T_errors (t (Snapshot name values h s).2) = T_errors (t s)).
Proof.
  split.
  - intros pre v post pre' err Hidx Hpre Herr.
    destruct (Snapshot_range_first_failure name values pre v post err
                [] pre' h (t s) Hidx Hpre Herr) as (h' & Hrun & _ & _).
    unfold Snapshot. rewrite Hidx. cbn [length] in Hrun. rewrite Hrun.
    split; reflexivity.
  - intros rs Hall.
    destruct (Snapshot_range_all name values (index h values)
                [] rs h (t s) eq_refl Hall) as (h' & Hrun & Hidx' & _).
    unfold Snapshot. cbn [length] in Hrun. rewrite Hrun.
    split; [reflexivity|]. split; [exact Hidx'|reflexivity].
Qed.

(** C10.  [Snapshot] writes into the caller's slice.  When every value
    normalises the slice holds the normal forms afterwards; when the value
    at index [length pre] is the first that fails, the slice holds the
    normal forms of the values before it, the failing value and those after
    it unchanged, and no entry has been appended.  No other slice of the
    store is touched. *)
Theorem Snapshot_overwrites_argument name (values : loc) h s :
  (∀ rs,
      Forall2 (λ x r, jsonRoundTrip x = Ok r) (index h values) rs →
      index (Snapshot name values h s).1 values = rs)
  ∧ (∀ pre v post pre' err,
      index h values = pre ++ v :: post →
      Forall2 (λ x r, jsonRoundTrip x = Ok r) pre pre' →
      jsonRoundTrip v = Err err →
      index (Snapshot name values h s).1 values = pre' ++ v :: post
      ∧ snapshots (Snapshot name values h s).2 = snapshots s)
  ∧ (∀ l, l ≠ values → (Snapshot name values h s).1 !! l = h !! l).
Proof.
  split; [|split].
  - intros rs Hall.
    destruct (Snapshot_range_all name values (index h values)
                [] rs h (t s) eq_refl Hall) as (h' & Hrun & Hidx' & _).
    unfold Snapshot. cbn [length] in Hrun. now rewrite Hrun.
  - intros pre v post pre' err Hidx Hpre Herr.
    destruct (Snapshot_range_first_failure name values pre v post err
                [] pre' h (t s) Hidx Hpre Herr) as (h' & Hrun & Hidx' & _).
    unfold Snapshot. rewrite Hidx. cbn [length] in Hrun. rewrite Hrun.
    split; [exact Hidx'|reflexivity].
  - intros l Hne.
    assert (∀ k i h0 (t0 : T),
              (Snapshot_range name values i k h0 t0).1.2 !! l = h0 !! l) as Hframe.
    { induction k as [|k IH]; intros i h0 t0; [reflexivity|].
      cbn [Snapshot_range].
      destruct (index h0 values !! i) as [v|]; [|reflexivity].
      destruct (jsonRoundTrip v) as [r|err]; [|reflexivity].
      rewrite IH. now rewrite lookup_insert_ne. }
    specialize (Hframe (length (index h values)) 0 h (t s)).
    unfold Snapshot.
    destruct (Snapshot_range name values 0 (length (index h values)) h (t s))
      as [[[] h'] t']; exact Hframe.
Qed.

End SnapshotProperties.

(** ** Normalisation *)

Section Normalisation.
Context `{Env}.

Lemma jsonRoundTrip_normalized (v r : any other) :
  jsonRoundTrip v = Ok r → normalized r.
Proof.
  unfold jsonRoundTrip. intros Hrt.
  destruct (json_Marshal v) as [bs|err]; [|discriminate].
  destruct (json_Unmarshal bs) as [r'|err] eqn:Hdec; [|discriminate].
  injection Hrt as <-. now exists bs.
Qed.

Lemma normalized_jsonRoundTrip (v : any other) :
  json_generic_stable → normalized v → jsonRoundTrip v = Ok v.
Proof.
  intros Hstable [bs Hdec].
  destruct (Hstable bs v Hdec) as (bs' & Henc & Hdec').
  unfold jsonRoundTrip. now rewrite Henc, Hdec'.
Qed.

End Normalisation.

(** ** Verify *)

Section VerifyProperties.
Context `{Env}.

Implicit Types (h : gmap loc (list (any other))) (s : Snapshotter) (w : World).

Lemma Verify_expectedNames_Some (entries : list (snapshot_data other)) :
  Verify_expectedNames (map Some entries) = Some (map data_Name entries).
Proof.
  induction entries as [|e entries IH]; [reflexivity|].
  cbn [map Verify_expectedNames]. now rewrite IH.
Qed.

Lemma diffString_same (a : any other) :
  difflib_empty_iff_equal → diffString a a = "".
Proof. intros Hdiff. unfold diffString. now apply Hdiff. Qed.

(** C6.  With no captured entry: when the golden file does not exist,
    [Verify] returns at once in either mode, reporting nothing and leaving
    the file system as it is; in rewrite mode, when the file is not reported
    missing, [Verify] removes it and returns, with exactly one report when
    the removal fails and none when it succeeds. *)
Theorem Verify_without_snapshots h w s :
  snapshots s = [] →
  (os_IsNotExist (os_Stat w (Verify_name (T_Name (t s)) (name s))) = true →
   ∀ rewrite,
     Verify rewrite h w s = (Return, w, with_t s (Helper (t s)))
     ∧ T_errors (t (Verify rewrite h w s).2) = T_errors (t s))
  ∧ (os_IsNotExist (os_Stat w (Verify_name (T_Name (t s)) (name s))) = false →
     (Verify true h w s).1.1 = Return
     ∧ (Verify true h w s).1.2
       = (os_Remove w (Verify_name (T_Name (t s)) (name s))).1
     ∧ T_errors (t (Verify true h w s).2)
       = T_errors (t s)
           ++ match (os_Remove w (Verify_name (T_Name (t s)) (name s))).2 with
              | Some _ =>
                  [Report "failed to remove the existing snapshot file %s"
                     [ArgString (Verify_name (T_Name (t s)) (name s))]]
              | None => []
              end).
Proof.
  intros Hempty. split.
  - intros Hmissing rewrite. unfold Verify.
    rewrite Hempty, Hmissing. cbn [length].
    rewrite decide_True by reflexivity.
    rewrite bool_decide_eq_true_2 by reflexivity.
    destruct rewrite; cbn; split; reflexivity.
  - intros Hthere. unfold Verify.
    rewrite Hempty, Hthere. cbn [length].
    rewrite decide_True by reflexivity.
    destruct (os_Remove w (Verify_name (T_Name (t s)) (name s))) as [w' [err|]];
      cbn; rewrite ?app_nil_r; repeat split; reflexivity.
Qed.

(** C4.  In compare mode, when the golden file is there and decodes to
    entries whose names, in order, are not the names of the captured
    entries, [Verify] returns with a single report, the diff of the two
    name sequences, which is not empty; the entries' values play no part. *)
Theorem Verify_names_first h w s (bs : bytes) (entries : list (snapshot_data other)) :
  difflib_empty_iff_equal →
  difflib_SplitLines_inj →
  pretty_Sprint_names_inj →
  os_IsNotExist (os_Stat w (Verify_name (T_Name (t s)) (name s))) = false →
  ioutil_ReadFile w (Verify_name (T_Name (t s)) (name s)) = Ok bs →
  json_Unmarshal_snapshots bs = Ok (map Some entries) →
  map data_Name entries ≠ map Name (snapshots s) →
  diffString (GoStrings (map data_Name entries)) (GoStrings (map Name (snapshots s))) ≠ ""
  ∧ Verify false h w s
    = (Return, w,
       with_t s
         (Errorf (Helper (t s)) ("snapshot names differ:" +:+ LF +:+ "%s")
            [ArgString
               (diffString (GoStrings (map data_Name entries))
                  (GoStrings (map Name (snapshots s))))])).
Proof.
  intros Hdiff Hlines Hpretty Hthere Hread Hdec Hnames.
  assert (diffString (GoStrings (map data_Name entries))
            (GoStrings (map Name (snapshots s))) ≠ "") as Hne.
  { unfold diffString. intros Heq. apply Hdiff in Heq.
    cbn [coerceToString as_string] in Heq.
    apply Hlines, Hpretty in Heq. contradiction. }
  split; [exact Hne|].
  unfold Verify. rewrite Hthere, Hread, Hdec. cbn [andb].
  rewrite Verify_expectedNames_Some. unfold Verify_actualNames.
  now rewrite decide_True by exact Hne.
Qed.

(** The body of the loop on an expected and a captured entry that each
    hold one value, a string. *)
Lemma Verify_body_strings h (expected : list (option (snapshot_data other)))
    (actual_i : snapshot) (i : nat) (t0 : T)
    (expected_i : snapshot_data other) (a b : string) :
  difflib_empty_iff_equal →
  difflib_SplitLines_inj →
  expected !! i = Some (Some expected_i) →
  data_Values expected_i = [GoString a] →
  index h (Values actual_i) = [GoString b] →
  (a = b → Verify_body h expected actual_i i t0 = (Next, t0))
  ∧ (a ≠ b →
     diffString (GoString a) (GoString b) ≠ ""
     ∧ Verify_body h expected actual_i i t0
       = (Return,
          Errorf
            (Errorf t0 ("snapshot %s differs:" +:+ LF +:+ "%s")
               [ArgString (Name actual_i);
                ArgString (diffString (GoString a) (GoString b))])
            rewriteHint [])).
Proof.
  intros Hdiff Hlines Hexp Ha Hb. split.
  - intros <-. unfold Verify_body. rewrite Hexp, Ha, Hb. cbn.
    rewrite !diffString_same by assumption.
    repeat case_decide; first [reflexivity | exfalso; intuition congruence].
  - intros Hne.
    assert (diffString (GoString a) (GoString b) ≠ "") as Hd.
    { unfold diffString. intros Heq. apply Hdiff in Heq.
      cbn [coerceToString as_string] in Heq. now apply Hlines in Heq. }
    split; [exact Hd|].
    unfold Verify_body. rewrite Hexp, Ha, Hb. cbn.
    fold (diffString (GoString a) (GoString b)).
    repeat case_decide; first [reflexivity | exfalso; intuition congruence].
Qed.

(** The loop over [pre ++ rest] is the loop over [pre] and then, unless it
    stopped, the loop over [rest]. *)
Lemma Verify_range_app h (expected : list (option (snapshot_data other)))
    (pre rest : list snapshot) :
  ∀ (i : nat) (t0 : T),
    Verify_range h expected (pre ++ rest) i t0
    = match Verify_range h expected pre i t0 with
      | (Next, t1) => Verify_range h expected rest (i + length pre) t1
      | stopped => stopped
      end.
Proof.
  induction pre as [|x pre IH]; intros i t0.
  - cbn. now rewrite Nat.add_0_r.
  - cbn [app Verify_range length].
    destruct (Verify_body h expected x i t0) as [[] t']; [|reflexivity..].
    rewrite IH, Nat.add_succ_r. reflexivity.
Qed.

(** C7.  Let the loop of [Verify] reach, with the reports [t1], an expected
    and a captured entry that each hold one value, a string on both sides.
    The entry is compared by the line diff of the two strings themselves
    (not of their rendering).  Equal strings: nothing is reported for the
    entry and the loop goes on with the next one.  Different strings: the
    diff is not empty, it is reported under the captured entry's name,
    followed by the hint, and [Verify] returns. *)
Theorem Verify_range_strings h (expected : list (option (snapshot_data other)))
    (pre : list snapshot) (actual_i : snapshot) (post : list snapshot)
    (t0 t1 : T) (expected_i : snapshot_data other) (a b : string) :
  difflib_empty_iff_equal →
  difflib_SplitLines_inj →
  Verify_range h expected pre 0 t0 = (Next, t1) →
  expected !! length pre = Some (Some expected_i) →
  data_Values expected_i = [GoString a] →
  index h (Values actual_i) = [GoString b] →
  (a = b →
   Verify_range h expected (pre ++ actual_i :: post) 0 t0
   = Verify_range h expected post (S (length pre)) t1)
  ∧ (a ≠ b →
     fst (difflib_GetUnifiedDiffString
            {| A := difflib_SplitLines a; B := difflib_SplitLines b;
               FromFile := "expected"; ToFile := "received"; Context := 1 |}) ≠ ""
     ∧ Verify_range h expected (pre ++ actual_i :: post) 0 t0
       = (Return,
          Errorf
            (Errorf t1 ("snapshot %s differs:" +:+ LF +:+ "%s")
               [ArgString (Name actual_i);
                ArgString
                  (fst (difflib_GetUnifiedDiffString
                          {| A := difflib_SplitLines a; B := difflib_SplitLines b;
                             FromFile := "expected"; ToFile := "received";
                             Context := 1 |}))])
            rewriteHint [])).
Proof.
  intros Hdiff Hlines Hpre Hexp Ha Hb.
  destruct (Verify_body_strings h expected actual_i (length pre) t1 expected_i a b
              Hdiff Hlines Hexp Ha Hb) as [Hequal Hdiffer].
  split.
  - intros Heq. rewrite Verify_range_app, Hpre. cbn [Verify_range Nat.add].
    now rewrite (Hequal Heq).
  - intros Hne. destruct (Hdiffer Hne) as [Hd Hbody].
    split; [exact Hd|].
    rewrite Verify_range_app, Hpre. cbn [Verify_range Nat.add].
    now rewrite Hbody.
Qed.

(** The body of the loop on an entry whose expected values do not start
    with a string: only the diff of the rendered values is taken, and the
    loop goes on whether it is empty or not. *)
Lemma Verify_body_generic h (expected : list (option (snapshot_data other)))
    (actual_i : snapshot) (i : nat) (t0 : T) (expected_i : snapshot_data other) :
  expected !! i = Some (Some expected_i) →
  data_Values expected_i !! 0 ≫= as_string = None →
  Verify_body h expected actual_i i t0
  = (Next,
     if decide (diffString (GoSlice (data_Values expected_i))
                  (GoSlice (index h (Values actual_i))) ≠ "")
     then Errorf
            (Errorf t0 ("snapshot %s differs:" +:+ LF +:+ "%s")
               [ArgString (Name actual_i);
                ArgString (diffString (GoSlice (data_Values expected_i))
                             (GoSlice (index h (Values actual_i))))])
            rewriteHint []
     else t0).
Proof.
  intros Hexp Hstr. unfold Verify_body. rewrite Hexp, Hstr.
  repeat case_decide; reflexivity.
Qed.

(** The loop over two such entries that both differ: four reports, and
    the loop runs to its end. *)
Lemma Verify_range_reports_both h (e1 e2 : snapshot_data other)
    (a1 a2 : snapshot) (t0 : T) :
  data_Values e1 !! 0 ≫= as_string = None →
  data_Values e2 !! 0 ≫= as_string = None →
  diffString (GoSlice (data_Values e1)) (GoSlice (index h (Values a1))) ≠ "" →
  diffString (GoSlice (data_Values e2)) (GoSlice (index h (Values a2))) ≠ "" →
  Verify_range h [Some e1; Some e2] [a1; a2] 0 t0
  = (Next,
     {| T_Name := T_Name t0;
        T_errors :=
          T_errors t0
            ++ [Report ("snapshot %s differs:" +:+ LF +:+ "%s")
                  [ArgString (Name a1);
                   ArgString (diffString (GoSlice (data_Values e1))
                                (GoSlice (index h (Values a1))))];
                Report rewriteHint [];
                Report ("snapshot %s differs:" +:+ LF +:+ "%s")
                  [ArgString (Name a2);
                   ArgString (diffString (GoSlice (data_Values e2))
                                (GoSlice (index h (Values a2))))];
                Report rewriteHint []];
        T_helpers := T_helpers t0 |}).
Proof.
  intros Hs1 Hs2 Hd1 Hd2.
  cbn [Verify_range].
  rewrite (Verify_body_generic h _ a1 0 t0 e1) by (reflexivity || assumption).
  rewrite decide_True by assumption.
  rewrite (Verify_body_generic h _ a2 1 _ e2) by (reflexivity || assumption).
  rewrite decide_True by assumption.
  unfold Errorf. cbn. rewrite <- !app_assoc. reflexivity.
Qed.

(** C1, what the code does.  In compare mode, with two captured entries
    whose names are those of the golden file, whose expected values are
    not a single string, and which both differ from the golden values:
    [Verify] reports the first entry and the hint, does not return, and
    goes on to compare and report the second entry and the hint again.
    The string case of the same loop returns after its report; this one
    does not. *)
Theorem Verify_reports_every_generic_mismatch h w s (bs : bytes)
    (e1 e2 : snapshot_data other) (a1 a2 : snapshot) :
  snapshots s = [a1; a2] →
  ioutil_ReadFile w (Verify_name (T_Name (t s)) (name s)) = Ok bs →
  json_Unmarshal_snapshots bs = Ok [Some e1; Some e2] →
  diffString (GoStrings [data_Name e1; data_Name e2])
    (GoStrings [Name a1; Name a2]) = "" →
  data_Values e1 !! 0 ≫= as_string = None →
  data_Values e2 !! 0 ≫= as_string = None →
  diffString (GoSlice (data_Values e1)) (GoSlice (index h (Values a1))) ≠ "" →
  diffString (GoSlice (data_Values e2)) (GoSlice (index h (Values a2))) ≠ "" →
  (Verify false h w s).1 = (Next, w)
  ∧ T_errors (t (Verify false h w s).2)
    = T_errors (t s)
        ++ [Report ("snapshot %s differs:" +:+ LF +:+ "%s")
              [ArgString (Name a1);
               ArgString (diffString (GoSlice (data_Values e1))
                            (GoSlice (index h (Values a1))))];
            Report rewriteHint [];
            Report ("snapshot %s differs:" +:+ LF +:+ "%s")
              [ArgString (Name a2);
               ArgString (diffString (GoSlice (data_Values e2))
                            (GoSlice (index h (Values a2))))];
            Report rewriteHint []].
Proof.
  intros Hsnaps Hread Hdec Hnames Hs1 Hs2 Hd1 Hd2.
  unfold Verify. rewrite Hsnaps, Hread, Hdec. cbn [length].
  rewrite bool_decide_eq_false_2, andb_false_r by discriminate.
  cbn [Verify_expectedNames Verify_actualNames map].
  rewrite Hnames. rewrite decide_False by auto.
  rewrite Verify_range_reports_both by assumption.
  split; reflexivity.
Qed.

End VerifyProperties.

(** ** Rewrite, then compare *)

Section RewriteThenCompare.
Context `{Env}.

Implicit Types (h : gmap loc (list (any other))) (s : Snapshotter) (w : World).

Lemma normalize_cases (vs : list (any other)) :
  (∃ rs, Forall2 (λ x r, jsonRoundTrip x = Ok r) vs rs)
  ∨ (∃ pre v post pre' err,
       vs = pre ++ v :: post
       ∧ Forall2 (λ x r, jsonRoundTrip x = Ok r) pre pre'
       ∧ jsonRoundTrip v = Err err).
Proof.
  induction vs as [|x vs IH].
  - left. exists []. constructor.
  - destruct (jsonRoundTrip x) as [r|err] eqn:Hx.
    + destruct IH as [(rs & Hrs)|(pre & v & post & pre' & err & -> & Hpre & Hv)].
      * left. exists (r :: rs). now constructor.
      * right. exists (x :: pre), v, post, (r :: pre'), err.
        split; [reflexivity|]. split; [now constructor|assumption].
    + right. exists [], x, vs, [], err.
      split; [reflexivity|]. split; [constructor|assumption].
Qed.

Lemma Forall2_jsonRoundTrip_normalized (vs rs : list (any other)) :
  Forall2 (λ x r, jsonRoundTrip x = Ok r) vs rs → Forall normalized rs.
Proof.
  induction 1 as [|x r vs rs Hx _ IH]; constructor; [|assumption].
  now apply jsonRoundTrip_normalized with x.
Qed.

(** One call: either it is reported, or it appends its entry and leaves
    every entry's slice normalised. *)
Lemma Snapshot_cases (n : string) (values : loc) h s :
  (∃ r, T_errors (t (Snapshot n values h s).2) = T_errors (t s) ++ [r])
  ∨ (T_errors (t (Snapshot n values h s).2) = T_errors (t s)
     ∧ T_Name (t (Snapshot n values h s).2) = T_Name (t s)
     ∧ name (Snapshot n values h s).2 = name s
     ∧ snapshots (Snapshot n values h s).2
       = snapshots s ++ [{| Name := n; Values := values |}]
     ∧ (all_normalized h (snapshots s) →
        all_normalized (Snapshot n values h s).1
          (snapshots (Snapshot n values h s).2))).
Proof.
  destruct (normalize_cases (index h values))
    as [(rs & Hall)|(pre & v & post & pre' & err & Hidx & Hpre & Herr)].
  - right.
    destruct (Snapshot_range_all n values (index h values)
                [] rs h (t s) eq_refl Hall) as (h' & Hrun & Hidx' & Hframe).
    unfold Snapshot. cbn [length] in Hrun. rewrite Hrun. cbn.
    repeat split.
    intros Hinv. apply Forall_app. split.
    + eapply Forall_impl; [exact Hinv|]. intros e He. cbn in He.
      destruct (decide (Values e = values)) as [->|Hne].
      * rewrite Hidx'. now apply Forall2_jsonRoundTrip_normalized with (index h values).
      * unfold index in *. now rewrite Hframe.
    + constructor; [|constructor]. cbn. rewrite Hidx'.
      now apply Forall2_jsonRoundTrip_normalized with (index h values).
  - left.
    destruct (Snapshot_range_first_failure n values pre v post err
                [] pre' h (t s) Hidx Hpre Herr) as (h' & Hrun & _ & _).
    unfold Snapshot. rewrite Hidx. cbn [length] in Hrun. rewrite Hrun.
    eexists. reflexivity.
Qed.

Lemma run_errors_grow (calls : list (string * loc)) :
  ∀ h s, ∃ extra, T_errors (t (run calls h s).2) = T_errors (t s) ++ extra.
Proof.
  induction calls as [|[n values] calls IH]; intros h s.
  - exists []. cbn. now rewrite app_nil_r.
  - cbn [run]. destruct (Snapshot n values h s) as [h' s'] eqn:Hsnap.
    destruct (IH h' s') as [extra Hextra]. rewrite Hextra.
    destruct (Snapshot_cases n values h s) as [[r Hr]|(Hsame & _)];
      rewrite Hsnap in *; cbn [snd] in *.
    + exists (r :: extra). rewrite Hr, <- app_assoc. reflexivity.
    + exists extra. now rewrite Hsame.
Qed.

(** A run in which no call is reported appends one entry per call, in
    order, and leaves every entry's slice normalised. *)
Lemma run_silent (calls : list (string * loc)) :
  ∀ h s,
    T_errors (t (run calls h s).2) = T_errors (t s) →
    T_Name (t (run calls h s).2) = T_Name (t s)
    ∧ name (run calls h s).2 = name s
    ∧ snapshots (run calls h s).2
      = snapshots s ++ map (λ c, {| Name := c.1; Values := c.2 |}) calls
    ∧ (all_normalized h (snapshots s) →
       all_normalized (run calls h s).1 (snapshots (run calls h s).2)).
Proof.
  induction calls as [|[n values] calls IH]; intros h s Hsilent.
  - cbn. rewrite app_nil_r. auto.
  - cbn [run] in *. destruct (Snapshot n values h s) as [h' s'] eqn:Hsnap.
    destruct (run_errors_grow calls h' s') as [extra Hextra].
    destruct (Snapshot_cases n values h s)
      as [[r Hr]|(Hsame & Hname & Hdisc & Hsnaps & Hinv)];
      rewrite Hsnap in *; cbn [fst snd] in *.
    + exfalso. rewrite Hextra, Hr, <- app_assoc in Hsilent.
      apply (f_equal length) in Hsilent. rewrite length_app in Hsilent.
      cbn in Hsilent. lia.
    + rewrite <- Hsame in Hsilent.
      destruct (IH h' s' Hsilent) as (Hname' & Hdisc' & Hsnaps' & Hinv').
      split; [congruence|]. split; [congruence|]. split; [|auto].
      rewrite Hsnaps', Hsnaps, <- app_assoc. reflexivity.
Qed.

(** The loop of [Verify] over entries that are compared with themselves. *)
Lemma Verify_range_same h (t0 : T) (rest : list snapshot) :
  difflib_empty_iff_equal →
  ∀ pre : list snapshot,
    Verify_range h (map Some (map (load h) (pre ++ rest))) rest (length pre) t0
    = (Next, t0).
Proof.
  intros Hdiff. induction rest as [|a rest IH]; intros pre; [reflexivity|].
  cbn [Verify_range].
  assert (Verify_body h (map Some (map (load h) (pre ++ a :: rest))) a (length pre) t0
          = (Next, t0)) as ->.
  { unfold Verify_body.
    rewrite list_lookup_fmap, list_lookup_fmap, list_lookup_middle by reflexivity.
    cbn [fmap option_fmap option_map load data_Values].
    rewrite !diffString_same by assumption.
    repeat case_decide; repeat case_match;
      first
        [ reflexivity
        | exfalso;
          match goal with
          | Hd : diffString ?x ?x ≠ "" |- _ => now apply Hd, diffString_same
          | Hd : "" ≠ "" |- _ => now apply Hd
          end ]. }
  specialize (IH (pre ++ [a])).
  rewrite <- app_assoc, length_app, Nat.add_1_r in IH. exact IH.
Qed.

Lemma errors_not_longer (l extra : list report) (r : report) :
  l ++ r :: extra ≠ l.
Proof.
  intros Heq. apply (f_equal length) in Heq.
  rewrite length_app in Heq. cbn in Heq. lia.
Qed.

(** A call on a slice that holds normalised values succeeds and leaves the
    contents of every slice as they are. *)
Lemma Snapshot_normalized (n : string) (values : loc) h s :
  json_generic_stable →
  Forall normalized (index h values) →
  T_errors (t (Snapshot n values h s).2) = T_errors (t s)
  ∧ ∀ l, index (Snapshot n values h s).1 l = index h l.
Proof.
  intros Hstable Hnorm.
  assert (Forall2 (λ x r, jsonRoundTrip x = Ok r) (index h values) (index h values))
    as Hall.
  { induction Hnorm as [|v vs Hv _ IH]; constructor; [|exact IH].
    now apply normalized_jsonRoundTrip. }
  destruct (Snapshot_range_all n values (index h values)
              [] (index h values) h (t s) eq_refl Hall) as (h' & Hrun & Hidx & Hframe).
  unfold Snapshot. cbn [length] in Hrun. rewrite Hrun. cbn.
  split; [reflexivity|]. intros l.
  destruct (decide (l = values)) as [->|Hne]; [exact Hidx|].
  unfold index. now rewrite Hframe.
Qed.

Lemma run_normalized (calls : list (string * loc)) :
  json_generic_stable →
  ∀ h s,
    Forall (λ c, Forall normalized (index h c.2)) calls →
    T_errors (t (run calls h s).2) = T_errors (t s)
    ∧ ∀ l, index (run calls h s).1 l = index h l.
Proof.
  intros Hstable. induction calls as [|[n values] calls IH]; intros h s Hnorm.
  - auto.
  - apply Forall_cons in Hnorm as [Hhere Hnorm]. cbn [snd] in Hhere.
    destruct (Snapshot_normalized n values h s Hstable Hhere) as [Herr Hidx].
    cbn [run]. destruct (Snapshot n values h s) as [h' s']. cbn [fst snd] in *.
    destruct (IH h' s') as [Herr' Hidx'].
    + eapply Forall_impl; [exact Hnorm|]. intros c Hc. cbn in *. now rewrite Hidx.
    + split; [congruence|]. intros l. now rewrite Hidx', Hidx.
Qed.

(** The loop of [Verify] reads the store only through the captured
    entries' slices. *)
Lemma Verify_range_store h h' (expected : list (option (snapshot_data other)))
    (actual : list snapshot) :
  (∀ l, index h' l = index h l) →
  ∀ (i : nat) (t0 : T),
    Verify_range h' expected actual i t0 = Verify_range h expected actual i t0.
Proof.
  intros Hidx. induction actual as [|a actual IH]; intros i t0; [reflexivity|].
  cbn [Verify_range].
  assert (Verify_body h' expected a i t0 = Verify_body h expected a i t0) as ->.
  { unfold Verify_body. now rewrite Hidx. }
  destruct (Verify_body h expected a i t0) as [[] t']; [apply IH|reflexivity..].
Qed.

(** Compare mode after a rewrite that reported nothing, for a Snapshotter
    [s2] that holds the entries that were written and a store [h2] that
    holds their values. *)
Lemma Verify_compare_written h1 s1 w (fl : flow) w1 s1' h2 s2 :
  json_snapshots_stable →
  difflib_empty_iff_equal →
  read_after_write →
  stat_after_remove →
  Forall (λ e, utf8_ValidString (Name e) = true) (snapshots s1) →
  all_normalized h1 (snapshots s1) →
  Verify true h1 w s1 = (fl, w1, s1') →
  T_errors (t s1') = T_errors (t s1) →
  (∀ l, index h2 l = index h1 l) →
  T_Name (t s2) = T_Name (t s1) →
  name s2 = name s1 →
  snapshots s2 = snapshots s1 →
  (Verify false h2 w1 s2).1.1 ≠ Panic
  ∧ (Verify false h2 w1 s2).1.2 = w1
  ∧ T_errors (t (Verify false h2 w1 s2).2) = T_errors (t s2).
Proof.
  intros Hcodec Hdiff Hfs Hrm Hvalid Hinv Hrewrite Hquiet Hidx HT Hname Hsnaps.
  unfold Verify in *. rewrite HT, Hname, Hsnaps.
  set (nm := Verify_name (T_Name (t s1)) (name s1)) in *.
  destruct (decide (length (snapshots s1) = 0)) as [Hlen|Hlen].
  - (* nothing was captured *)
    rewrite bool_decide_eq_true_2 by assumption.
    destruct (os_IsNotExist (os_Stat w nm)) eqn:Hstat.
    + injection Hrewrite as <- <- <-. rewrite Hstat. cbn.
      repeat split; discriminate.
    + destruct (os_Remove w nm) as [w' [err|]] eqn:Hremove.
      * injection Hrewrite as <- <- <-. cbn in Hquiet.
        now apply errors_not_longer in Hquiet.
      * injection Hrewrite as <- <- <-.
        rewrite (Hrm _ _ _ Hremove). cbn.
        repeat split; discriminate.
  - (* the golden file was written *)
    rewrite bool_decide_eq_false_2, andb_false_r by assumption.
    destruct (os_MkdirAll w "testdata" 493) as [wa [err|]].
    { injection Hrewrite as <- <- <-. cbn in Hquiet.
      now apply errors_not_longer in Hquiet. }
    destruct (json_MarshalIndent (map (load h1) (snapshots s1)) "" "  ")
      as [bs|err] eqn:Henc.
    2:{ injection Hrewrite as <- <- <-. cbn in Hquiet.
        now apply errors_not_longer in Hquiet. }
    destruct (ioutil_WriteFile wa nm bs 420) as [wb [err|]] eqn:Hwrite.
    { injection Hrewrite as <- <- <-. cbn in Hquiet.
      now apply errors_not_longer in Hquiet. }
    injection Hrewrite as <- <- <-.
    rewrite (Hfs _ _ _ _ _ Hwrite).
    rewrite (Hcodec (map (load h1) (snapshots s1)) bs); [| |exact Henc].
    2:{ unfold all_normalized in Hinv. clear -Hinv Hvalid.
        induction Hvalid as [|e entries He _ IH]; [constructor|].
        cbn [map]. apply Forall_cons in Hinv as [He' Hinv].
        constructor; [|now apply IH]. cbn. auto. }
    rewrite Verify_expectedNames_Some. unfold Verify_actualNames.
    assert (map data_Name (map (load h1) (snapshots s1)) = map Name (snapshots s1))
      as ->.
    { rewrite map_map. reflexivity. }
    rewrite diffString_same by assumption.
    rewrite decide_False by auto.
    rewrite (Verify_range_store h1 h2) by assumption.
    pose proof (Verify_range_same h1 (Helper (t s2)) (snapshots s1) Hdiff [])
      as Hloop.
    cbn [app length] in Hloop. rewrite Hloop.
    cbn. repeat split; discriminate.
Qed.

(** C3, as the code has it.  Take a run of capture calls, none of which is
    reported and whose entry names are valid UTF-8, and let [Verify] in
    rewrite mode finish without a report.  Then the same calls on a fresh
    Snapshotter of the same test and discriminator, followed by [Verify] in
    compare mode on the file system the rewrite left, end without a panic,
    without a report and without a change to the file system.  The caller's
    slices in the second run may be as they were before the first run
    ([h2 = h]) or as the first run left them ([h2 = h1]). *)
Theorem rewrite_then_compare (calls : list (string * loc)) h (t0 : T)
    (d : string) w h1 s1 (fl : flow) w1 s1' h2 :
  json_generic_stable →
  json_snapshots_stable →
  difflib_empty_iff_equal →
  read_after_write →
  stat_after_remove →
  Forall (λ c, utf8_ValidString c.1 = true) calls →
  run calls h (NewNamed t0 d) = (h1, s1) →
  T_errors (t s1) = T_errors t0 →
  Verify true h1 w s1 = (fl, w1, s1') →
  T_errors (t s1') = T_errors t0 →
  h2 = h ∨ h2 = h1 →
  (Verify false (run calls h2 (NewNamed t0 d)).1 w1
     (run calls h2 (NewNamed t0 d)).2).1.1 ≠ Panic
  ∧ (Verify false (run calls h2 (NewNamed t0 d)).1 w1
       (run calls h2 (NewNamed t0 d)).2).1.2 = w1
  ∧ T_errors (t (Verify false (run calls h2 (NewNamed t0 d)).1 w1
                   (run calls h2 (NewNamed t0 d)).2).2) = T_errors t0.
Proof.
  intros Hstable Hcodec Hdiff Hfs Hrm Hvalid Hrun Hsilent Hrewrite Hquiet Hh2.
  destruct (run_silent calls h (NewNamed t0 d)) as (HT & Hname & Hsnaps & Hinv);
    [now rewrite Hrun|].
  rewrite Hrun in *. cbn [fst snd NewNamed snapshots t name app] in *.
  specialize (Hinv (Forall_nil_2 _)).
  assert (Forall (λ e, utf8_ValidString (Name e) = true) (snapshots s1)) as Hnames.
  { rewrite Hsnaps. clear -Hvalid.
    induction Hvalid; cbn [map]; constructor; auto. }
  assert (Forall (λ c : string * loc, Forall normalized (index h1 c.2)) calls)
    as Hcalls.
  { unfold all_normalized in Hinv. rewrite Hsnaps in Hinv. clear -Hinv.
    induction calls as [|c calls IH]; [constructor|].
    cbn [map] in Hinv. apply Forall_cons in Hinv as [Hc Hinv].
    constructor; [exact Hc|now apply IH]. }
  assert (T_errors (t (run calls h2 (NewNamed t0 d)).2) = T_errors t0
          ∧ ∀ l, index (run calls h2 (NewNamed t0 d)).1 l = index h1 l)
    as [Hsilent2 Hidx2].
  { destruct Hh2 as [->| ->].
    - rewrite Hrun. auto.
    - now apply (run_normalized calls Hstable h1 (NewNamed t0 d)). }
  destruct (run_silent calls h2 (NewNamed t0 d) Hsilent2)
    as (HT2 & Hname2 & Hsnaps2 & _).
  cbn [NewNamed snapshots t name app] in HT2, Hname2, Hsnaps2.
  rewrite <- Hsilent2.
  apply (Verify_compare_written h1 s1 w fl w1 s1'); try assumption.
  - congruence.
  - congruence.
  - congruence.
  - congruence.
Qed.

End RewriteThenCompare.

(** ** The executable instance satisfies the laws *)

Section Instance.
#[local] Existing Instance ref_Env.

Lemma ref_difflib_empty_iff_equal : difflib_empty_iff_equal.
Proof.
  intros a b. cbn. unfold ref_GetUnifiedDiffString. cbn.
  destruct (decide (a = b)) as [->|Hne]; cbn; [tauto|].
  split; [discriminate|contradiction].
Qed.

Lemma ref_SplitLines_concat (s : string) :
  ref_SplitLines s ≠ [] ∧ ref_concat (ref_SplitLines s) = s +:+ LF.
Proof.
  induction s as [|c rest [Hne IH]]; [split; [discriminate|reflexivity]|].
  cbn [ref_SplitLines].
  destruct (decide (c = ascii_of_nat 10)) as [->|Hc].
  - split; [discriminate|]. cbn [ref_concat]. now rewrite IH.
  - destruct (ref_SplitLines rest) as [|line lines]; [contradiction|].
    split; [discriminate|]. cbn [ref_concat] in *.
    rewrite !append_cons. now rewrite IH.
Qed.

Lemma ref_difflib_SplitLines_inj : difflib_SplitLines_inj.
Proof.
  intros s1 s2 Heq. cbn in Heq.
  apply (f_equal ref_concat) in Heq.
  rewrite !(proj2 (ref_SplitLines_concat _)) in Heq.
  now apply append_cancel_r in Heq.
Qed.

Lemma ref_quoted_inj (s1 : string) :
  ∀ s2 r1 r2, ref_quoted s1 r1 = ref_quoted s2 r2 → s1 = s2 ∧ r1 = r2.
Proof.
  induction s1 as [|c1 s1 IH]; intros [|c2 s2] r1 r2 Heq; cbn in Heq.
  - now injection Heq.
  - destruct (decide (c2 = DQUOTE ∨ c2 = "\"%char)) as [_|Hc]; [discriminate|].
    injection Heq as Hq _. exfalso. apply Hc. left. now symmetry.
  - destruct (decide (c1 = DQUOTE ∨ c1 = "\"%char)) as [_|Hc]; [discriminate|].
    injection Heq as Hq _. exfalso. apply Hc. now left.
  - destruct (decide (c1 = DQUOTE ∨ c1 = "\"%char)) as [H1|H1],
             (decide (c2 = DQUOTE ∨ c2 = "\"%char)) as [H2|H2].
    + injection Heq as -> Heq. apply IH in Heq as [-> ->]. auto.
    + injection Heq as Hc _. exfalso. apply H2. right. now symmetry.
    + injection Heq as Hc _. exfalso. apply H1. now right.
    + injection Heq as -> Heq. apply IH in Heq as [-> ->]. auto.
Qed.

Lemma append_nil_r (a : string) : a +:+ "" = a.
Proof.
  induction a as [|x a IH]; [reflexivity|]. rewrite append_cons. now f_equal.
Qed.

Lemma ref_Sprint_names_inj (l1 : list string) :
  ∀ l2, ref_Sprint_names l1 = ref_Sprint_names l2 → l1 = l2.
Proof.
  unfold ref_Sprint_names.
  induction l1 as [|s1 l1 IH]; intros [|s2 l2] Heq;
    cbn [fold_right] in Heq; unfold ref_quote_to in Heq.
  - reflexivity.
  - discriminate.
  - discriminate.
  - injection Heq as Heq. apply ref_quoted_inj in Heq as [-> Heq].
    apply (inj (String.app ",")) in Heq.
    apply (inj (String.app LF)) in Heq.
    f_equal. apply IH. now f_equal.
Qed.

Lemma ref_pretty_Sprint_names_inj : pretty_Sprint_names_inj.
Proof.
  intros l1 l2 Heq. cbn in Heq. unfold ref_Sprint in Heq.
  cbn [ref_Sprint_to] in Heq. rewrite !append_nil_r in Heq.
  now apply ref_Sprint_names_inj.
Qed.

Lemma utf8_Valid_coerce_fixed (s : string) :
  ∀ need lo hi,
    utf8_Valid_from s need lo hi = true →
    utf8_continues s need lo hi = true ∧ json_coerce_from s need = s.
Proof.
  induction s as [|c rest IH]; intros need lo hi Hvalid.
  - cbn in Hvalid. apply bool_decide_eq_true in Hvalid as ->. auto.
  - destruct need as [|k]; cbn [utf8_Valid_from] in Hvalid.
    + split; [reflexivity|]. cbn [json_coerce_from].
      destruct (utf8_first (N_of_ascii c)) as [[[need' lo'] hi']|]; [|discriminate].
      destruct (IH _ _ _ Hvalid) as [-> ->]. reflexivity.
    + apply andb_true_iff in Hvalid as [Hrange Hvalid].
      destruct (IH _ _ _ Hvalid) as [Hcont Hfix].
      cbn [utf8_continues json_coerce_from]. now rewrite Hrange, Hcont, Hfix.
Qed.

Lemma utf8_Valid_coerce (s : string) :
  ∀ keep lo hi,
    utf8_continues s keep lo hi = true →
    utf8_Valid_from (json_coerce_from s keep) keep lo hi = true.
Proof.
  induction s as [|c rest IH]; intros keep lo hi Hcont.
  - destruct keep; [reflexivity|discriminate].
  - destruct keep as [|k].
    + cbn [json_coerce_from].
      assert (utf8_Valid_from (utf8_RuneError +:+ json_coerce_from rest 0) 0 lo hi
              = true) as Hreplaced.
      { change (utf8_Valid_from (json_coerce_from rest 0) 0 128 191 = true).
        now apply IH. }
      destruct (utf8_first (N_of_ascii c)) as [[[need' lo'] hi']|] eqn:Hfirst;
        [|exact Hreplaced].
      destruct (utf8_continues rest need' lo' hi') eqn:Hrest; [|exact Hreplaced].
      cbn [utf8_Valid_from]. rewrite Hfirst. now apply IH.
    + cbn [utf8_continues] in Hcont.
      apply andb_true_iff in Hcont as [Hrange Hcont].
      cbn [json_coerce_from utf8_Valid_from]. rewrite Hrange. now apply IH.
Qed.

Lemma json_coerce_valid (s : string) :
  utf8_ValidString s = true → json_coerce s = s.
Proof. intros Hvalid. now apply (utf8_Valid_coerce_fixed s 0 128%N 191%N). Qed.

Lemma json_coerce_idempotent (s : string) :
  json_coerce (json_coerce s) = json_coerce s.
Proof.
  apply json_coerce_valid. now apply (utf8_Valid_coerce s 0 128%N 191%N).
Qed.

(** Induction on a document, with the hypothesis for every element of an
    array. *)
Lemma json_nested_ind (P : json → Prop) :
  P JNull →
  (∀ z, P (JNumber z)) →
  (∀ s, P (JString s)) →
  (∀ l, Forall P l → P (JArray l)) →
  (∀ fields, P (JObject fields)) →
  ∀ j, P j.
Proof.
  intros Hnull Hnum Hstr Harr Hobj.
  fix IH 1.
  intros [|z|s|l|fields];
    [exact Hnull|apply Hnum|apply Hstr| |apply Hobj].
  apply Harr. induction l as [|x l IHl]; constructor; [apply IH|exact IHl].
Qed.

Lemma ref_traverse_stable (l : list json) :
  Forall ref_stable_at l →
  ∀ vs, traverse ref_Unmarshal l = Ok vs →
    ∃ js, traverse ref_Marshal vs = Ok js ∧ traverse ref_Unmarshal js = Ok vs.
Proof.
  induction 1 as [|j l Hj _ IH]; intros vs Hdec; cbn in Hdec.
  - injection Hdec as <-. now exists [].
  - destruct (ref_Unmarshal j) as [v|] eqn:Hv; [|discriminate].
    destruct (traverse ref_Unmarshal l) as [vs'|] eqn:Hvs; [|discriminate].
    injection Hdec as <-.
    destruct (Hj v Hv) as (j' & Henc & Hdec').
    destruct (IH vs' eq_refl) as (js & Hencs & Hdecs).
    exists (j' :: js). cbn. now rewrite Henc, Hencs, Hdec', Hdecs.
Qed.

Lemma ref_json_generic_stable : json_generic_stable.
Proof.
  intros j. change (ref_stable_at j).
  induction j as [|z|s|l IH|fields] using json_nested_ind; intros v Hdec;
    cbn in Hdec.
  - injection Hdec as <-. now exists JNull.
  - injection Hdec as <-. now exists (JNumber z).
  - injection Hdec as <-. exists (JString (json_coerce (json_coerce s))).
    cbn. now rewrite !json_coerce_idempotent.
  - destruct (traverse ref_Unmarshal l) as [vs|] eqn:Hvs; [|discriminate].
    injection Hdec as <-.
    destruct (ref_traverse_stable l IH vs Hvs) as (js & Hencs & Hdecs).
    exists (JArray js). cbn. now rewrite Hencs, Hdecs.
  - discriminate.
Qed.

Lemma ref_traverse_normalized (vs : list (any ref_other)) :
  Forall normalized vs →
  ∀ js, traverse ref_Marshal vs = Ok js → traverse ref_Unmarshal js = Ok vs.
Proof.
  induction 1 as [|v vs [j Hj] _ IH]; intros js Henc; cbn in Henc.
  - now injection Henc as <-.
  - destruct (ref_json_generic_stable j v Hj) as (j' & Hv & Hdec).
    cbn in Hv, Hdec. rewrite Hv in Henc.
    destruct (traverse ref_Marshal vs) as [js'|]; [|discriminate].
    injection Henc as <-. cbn. now rewrite Hdec, (IH js' eq_refl).
Qed.

Lemma ref_json_snapshots_stable : json_snapshots_stable.
Proof.
  intros entries bs Hok Henc. cbn in *. unfold ref_MarshalIndent in Henc.
  destruct (traverse ref_Marshal_snapshot entries) as [js|] eqn:Hjs; [|discriminate].
  injection Henc as <-. cbn. clear -Hok Hjs.
  revert js Hjs. induction Hok as [|e entries [Hname Hvalues] _ IH]; intros js Hjs;
    cbn in Hjs.
  - now injection Hjs as <-.
  - unfold ref_Marshal_snapshot in Hjs at 1.
    destruct (traverse ref_Marshal (data_Values e)) as [vjs|] eqn:Hvjs; [|discriminate].
    destruct (traverse ref_Marshal_snapshot entries) as [js'|]; [|discriminate].
    injection Hjs as <-. cbn.
    rewrite (ref_traverse_normalized _ Hvalues _ Hvjs).
    rewrite (IH js' eq_refl).
    rewrite json_coerce_idempotent, json_coerce_valid by assumption.
    now destruct e.
Qed.

Lemma ref_read_after_write : read_after_write.
Proof.
  intros w path bs perm w' Hwrite. cbn in *.
  unfold ref_WriteFile in Hwrite. unfold ref_ReadFile.
  destruct (decide (path ∈ locked w)); [discriminate|].
  injection Hwrite as <-. cbn. now rewrite lookup_insert_eq.
Qed.

Lemma ref_stat_after_remove : stat_after_remove.
Proof.
  intros w path w' Hremove. cbn in *.
  unfold ref_Remove in Hremove. unfold ref_Stat.
  destruct (decide (path ∈ locked w)); [discriminate|].
  destruct (files w !! path); [|discriminate].
  injection Hremove as <-. cbn. now rewrite lookup_delete_eq.
Qed.

End Instance.

(** ** The theorems on concrete runs *)

Section Runs.
#[local] Existing Instance ref_Env.

(** A call whose second value is a channel: the first value has been
    normalised in the caller's slice, the call is reported, no entry is
    appended. *)
Example Snapshot_failing_call :
  index (Snapshot "c" 3%positive ref_store (New (ref_T "TestA"))).1 3%positive
  = [GoOther (Float64 1); GoOther Chan; GoOther (Int 2)]
  ∧ snapshots (Snapshot "c" 3%positive ref_store (New (ref_T "TestA"))).2 = []
  ∧ T_errors (t (Snapshot "c" 3%positive ref_store (New (ref_T "TestA"))).2)
    = [Report "%s: error roundtripping value %v: %s"
         [ArgString "c"; ArgValue (GoOther Chan); ArgError ErrUnsupportedType]].
Proof. repeat split; reflexivity. Qed.

(** A call whose values all normalise. *)
Example Snapshot_passing_call :
  index (Snapshot "a" 1%positive ref_store (New (ref_T "TestA"))).1 1%positive
  = [GoOther (Float64 1); GoString "hello"]
  ∧ snapshots (Snapshot "a" 1%positive ref_store (New (ref_T "TestA"))).2
    = [{| Name := "a"; Values := 1%positive |}]
  ∧ T_errors (t (Snapshot "a" 1%positive ref_store (New (ref_T "TestA"))).2) = [].
Proof. repeat split; reflexivity. Qed.

(** No captured entry, rewrite mode: a golden file that may not be removed
    stays and the failure is reported; one that may be removed is gone and
    nothing is reported. *)
Lemma Verify_without_snapshots_witness :
  (Verify true ∅
     (ref_with_file "testdata/TestA.snapshots.json" JNull
        {["testdata/TestA.snapshots.json"]})
     (New (ref_T "TestA"))).1.1 = Return
  ∧ T_errors
      (t (Verify true ∅
            (ref_with_file "testdata/TestA.snapshots.json" JNull
               {["testdata/TestA.snapshots.json"]})
            (New (ref_T "TestA"))).2)
    = [Report "failed to remove the existing snapshot file %s"
         [ArgString "testdata/TestA.snapshots.json"]]
  ∧ files
      (Verify true ∅ (ref_with_file "testdata/TestA.snapshots.json" JNull ∅)
         (New (ref_T "TestA"))).1.2 = ∅
  ∧ T_errors
      (t (Verify true ∅ (ref_with_file "testdata/TestA.snapshots.json" JNull ∅)
            (New (ref_T "TestA"))).2) = []
  ∧ Verify false ∅ ref_empty (New (ref_T "TestA"))
    = (Return, ref_empty, with_t (New (ref_T "TestA")) (Helper (ref_T "TestA"))).
Proof.
  destruct (Verify_without_snapshots (H := ref_Env) ∅
              (ref_with_file "testdata/TestA.snapshots.json" JNull
                 {["testdata/TestA.snapshots.json"]})
              (New (ref_T "TestA")) eq_refl) as [_ Hlocked].
  destruct (Hlocked eq_refl) as (Hflow & _ & Hreports).
  destruct (Verify_without_snapshots (H := ref_Env) ∅
              (ref_with_file "testdata/TestA.snapshots.json" JNull ∅)
              (New (ref_T "TestA")) eq_refl) as [_ Hfree].
  destruct (Hfree eq_refl) as (_ & Hworld & Hquiet).
  destruct (Verify_without_snapshots (H := ref_Env) ∅ ref_empty (New (ref_T "TestA")) eq_refl)
    as [Hmissing _].
  destruct (Hmissing eq_refl false) as [Hcompare _].
  split; [exact Hflow|]. split; [exact Hreports|].
  split; [rewrite Hworld; reflexivity|].
  split; [exact Hquiet|exact Hcompare].
Defined.

(** The golden file names its entries [b], [a]; the captured ones are [a],
    [b], with the same values: one report, of the names. *)
Lemma Verify_names_first_witness :
  (Verify false ref_store
     (ref_with_file "testdata/TestA.snapshots.json" (ref_golden "b" 4 "a" 3) ∅)
     ref_captured).1.1 = Return
  ∧ map format
      (T_errors
         (t (Verify false ref_store
               (ref_with_file "testdata/TestA.snapshots.json"
                  (ref_golden "b" 4 "a" 3) ∅)
               ref_captured).2))
    = ["snapshot names differ:" +:+ LF +:+ "%s"].
Proof.
  destruct (Verify_names_first (H := ref_Env) ref_store
              (ref_with_file "testdata/TestA.snapshots.json" (ref_golden "b" 4 "a" 3) ∅)
              ref_captured (ref_golden "b" 4 "a" 3)
              [SnapshotData "b" [GoOther (Float64 4)];
               SnapshotData "a" [GoOther (Float64 3)]]
              ref_difflib_empty_iff_equal ref_difflib_SplitLines_inj
              ref_pretty_Sprint_names_inj eq_refl eq_refl eq_refl)
    as [_ Hverify].
  - discriminate.
  - rewrite Hverify. split; reflexivity.
Defined.

(** One string on both sides, in the second of two entries: [x] against
    [line one] is reported and ends the loop; [line one] against itself is
    not reported. *)
Lemma Verify_range_strings_witness :
  (Verify_range ref_store
     [Some (SnapshotData "a" [GoOther (Float64 3)]);
      Some (SnapshotData "s" [GoString "x"])]
     [{| Name := "a"; Values := 4%positive |};
      {| Name := "s"; Values := 2%positive |}] 0 (ref_T "TestA")).1 = Return
  ∧ Verify_range ref_store
      [Some (SnapshotData "a" [GoOther (Float64 3)]);
       Some (SnapshotData "s" [GoString "line one"])]
      [{| Name := "a"; Values := 4%positive |};
       {| Name := "s"; Values := 2%positive |}] 0 (ref_T "TestA")
    = (Next, ref_T "TestA").
Proof.
  destruct (Verify_range_strings (H := ref_Env) ref_store
              [Some (SnapshotData "a" [GoOther (Float64 3)]);
               Some (SnapshotData "s" [GoString "x"])]
              [{| Name := "a"; Values := 4%positive |}]
              {| Name := "s"; Values := 2%positive |} []
              (ref_T "TestA") (ref_T "TestA")
              (SnapshotData "s" [GoString "x"]) "x" "line one"
              ref_difflib_empty_iff_equal ref_difflib_SplitLines_inj
              eq_refl eq_refl eq_refl eq_refl) as [_ Hdiffer].
  destruct (Verify_range_strings (H := ref_Env) ref_store
              [Some (SnapshotData "a" [GoOther (Float64 3)]);
               Some (SnapshotData "s" [GoString "line one"])]
              [{| Name := "a"; Values := 4%positive |}]
              {| Name := "s"; Values := 2%positive |} []
              (ref_T "TestA") (ref_T "TestA")
              (SnapshotData "s" [GoString "line one"]) "line one" "line one"
              ref_difflib_empty_iff_equal ref_difflib_SplitLines_inj
              eq_refl eq_refl eq_refl eq_refl) as [Hequal _].
  split.
  - destruct Hdiffer as [_ Hrun]; [discriminate|].
    cbn [app] in Hrun. now rewrite Hrun.
  - specialize (Hequal eq_refl). cbn [app] in Hequal. now rewrite Hequal.
Defined.

(** The golden file holds [a: [1]], [b: [2]]; the captured entries are
    [a: [3]], [b: [4]].  Both entries are reported. *)
Lemma Verify_reports_every_generic_mismatch_witness :
  (Verify false ref_store
     (ref_with_file "testdata/TestA.snapshots.json" (ref_golden "a" 1 "b" 2) ∅)
     ref_captured).1.1 = Next
  ∧ map (λ r, (format r, hd (ArgString "") (args r)))
      (T_errors
         (t (Verify false ref_store
               (ref_with_file "testdata/TestA.snapshots.json"
                  (ref_golden "a" 1 "b" 2) ∅)
               ref_captured).2))
    = [("snapshot %s differs:" +:+ LF +:+ "%s", ArgString "a");
       (rewriteHint, ArgString "");
       ("snapshot %s differs:" +:+ LF +:+ "%s", ArgString "b");
       (rewriteHint, ArgString "")].
Proof.
  destruct (Verify_reports_every_generic_mismatch (H := ref_Env) ref_store
              (ref_with_file "testdata/TestA.snapshots.json" (ref_golden "a" 1 "b" 2) ∅)
              ref_captured (ref_golden "a" 1 "b" 2)
              (SnapshotData "a" [GoOther (Float64 1)])
              (SnapshotData "b" [GoOther (Float64 2)])
              {| Name := "a"; Values := 4%positive |}
              {| Name := "b"; Values := 5%positive |}
              eq_refl eq_refl eq_refl eq_refl eq_refl eq_refl)
    as [Hflow Hreports].
  - lazy. discriminate.
  - lazy. discriminate.
  - rewrite Hflow, Hreports. split; reflexivity.
Defined.

(** Two calls, rewritten and then compared. *)
Lemma rewrite_then_compare_witness :
  T_errors
    (t (Verify false
          (run [("a", 1%positive); ("b", 2%positive)] ref_store
             (NewNamed (ref_T "TestA/b") "x:y")).1
          (Verify true
             (run [("a", 1%positive); ("b", 2%positive)] ref_store
                (NewNamed (ref_T "TestA/b") "x:y")).1
             ref_empty
             (run [("a", 1%positive); ("b", 2%positive)] ref_store
                (NewNamed (ref_T "TestA/b") "x:y")).2).1.2
          (run [("a", 1%positive); ("b", 2%positive)] ref_store
             (NewNamed (ref_T "TestA/b") "x:y")).2).2) = [].
Proof.
  eapply (rewrite_then_compare (H := ref_Env) [("a", 1%positive); ("b", 2%positive)]
            ref_store (ref_T "TestA/b") "x:y" ref_empty).
  - exact ref_json_generic_stable.
  - exact ref_json_snapshots_stable.
  - exact ref_difflib_empty_iff_equal.
  - exact ref_read_after_write.
  - exact ref_stat_after_remove.
  - repeat constructor.
  - apply surjective_pairing.
  - reflexivity.
  - rewrite (surjective_pairing (Verify true _ _ _)).
    rewrite (surjective_pairing (Verify true _ _ _).1). reflexivity.
  - reflexivity.
  - left. reflexivity.
Defined.

(** C3, as stated, fails.  One call whose name is the byte 0xFF and whose
    value normalises: the call is not reported, the rewrite is not reported
    and writes the name as U+FFFD, and the comparison of the same call with
    that file reports that the names differ. *)
Lemma rewrite_then_compare_invalid_name :
  T_errors
    (t (run [(ref_bad_name, 2%positive)] ref_store (New (ref_T "TestA"))).2) = []
  ∧ T_errors
      (t (Verify true
            (run [(ref_bad_name, 2%positive)] ref_store (New (ref_T "TestA"))).1
            ref_empty
            (run [(ref_bad_name, 2%positive)] ref_store (New (ref_T "TestA"))).2).2)
    = []
  ∧ files
      (Verify true
         (run [(ref_bad_name, 2%positive)] ref_store (New (ref_T "TestA"))).1
         ref_empty
         (run [(ref_bad_name, 2%positive)] ref_store (New (ref_T "TestA"))).2).1.2
    = {[ "testdata/TestA.snapshots.json" :=
           JArray [JObject [("Name", JString utf8_RuneError);
                            ("Values", JArray [JString "line one"])]] ]}
  ∧ map format
      (T_errors
         (t (Verify false
               (run [(ref_bad_name, 2%positive)] ref_store (New (ref_T "TestA"))).1
               (Verify true
                  (run [(ref_bad_name, 2%positive)] ref_store (New (ref_T "TestA"))).1
                  ref_empty
                  (run [(ref_bad_name, 2%positive)] ref_store
                     (New (ref_T "TestA"))).2).1.2
               (run [(ref_bad_name, 2%positive)] ref_store (New (ref_T "TestA"))).2).2))
    = ["snapshot names differ:" +:+ LF +:+ "%s"].
Proof. repeat split; reflexivity. Qed.

End Runs.

(** * Further properties *)

(** ** The golden file's path, continued *)

Lemma append_assoc (a b c : string) : (a +:+ b) +:+ c = a +:+ b +:+ c.
Proof.
  induction a as [|x a IH]; [reflexivity|].
  rewrite !append_cons. now f_equal.
Qed.

Lemma sanitize_app (a b : string) :
  sanitize (a +:+ b) = sanitize a +:+ sanitize b.
Proof.
  induction a as [|x a IH]; [reflexivity|].
  rewrite append_cons. cbn [sanitize]. now rewrite append_cons, IH.
Qed.

Lemma has_byte_app (c : ascii) (a b : string) :
  has_byte c (a +:+ b) = has_byte c a || has_byte c b.
Proof.
  induction a as [|x a IH]; [reflexivity|].
  rewrite append_cons. cbn [has_byte]. now rewrite IH, orb_assoc.
Qed.

Lemma sanitize_clean (s : string) :
  has_byte "/" (sanitize s) = false ∧ has_byte ":" (sanitize s) = false.
Proof.
  induction s as [|c s [IH1 IH2]]; [split; reflexivity|].
  cbn [sanitize has_byte]. rewrite IH1, IH2, !orb_false_r.
  unfold sanitize_byte.
  destruct (decide (c = "/"%char)) as [->|H1]; [split; reflexivity|].
  destruct (decide (c = ":"%char)) as [->|H2]; [split; reflexivity|].
  split; apply bool_decide_eq_false_2; assumption.
Qed.

(** X1.  The golden file always lies directly in [testdata]: the path is
    [testdata/] followed by one file name that ends in [.snapshots.json]
    and holds no [/] and no [:], whatever the test identifier and the
    discriminator contain. *)
Theorem Verify_name_single_element (t_Name s_name : string) :
  ∃ stem,
    Verify_name t_Name s_name = "testdata/" +:+ stem +:+ ".snapshots.json"
    ∧ has_byte "/" (stem +:+ ".snapshots.json") = false
    ∧ has_byte ":" (stem +:+ ".snapshots.json") = false.
Proof.
  exists (sanitize t_Name
            +:+ (if decide (s_name = "") then "" else "_" +:+ sanitize s_name)).
  split.
  - rewrite Verify_name_unfold. now rewrite append_assoc.
  - destruct (sanitize_clean t_Name) as [Ht1 Ht2].
    destruct (sanitize_clean s_name) as [Hs1 Hs2].
    rewrite !has_byte_app, Ht1, Ht2.
    destruct (decide (s_name = "")); [split; reflexivity|].
    rewrite !has_byte_app, Hs1, Hs2. split; reflexivity.
Qed.

(** X2.  The discriminator is joined to the test identifier by a plain
    [_]: a Snapshotter named [d] of the test [t] uses the golden file of
    the unnamed Snapshotter of a test called [t_d]. *)
Theorem Verify_name_boundary (t_Name s_name : string) :
  s_name ≠ "" →
  Verify_name t_Name s_name = Verify_name (t_Name +:+ "_" +:+ s_name) "".
Proof.
  intros Hne. rewrite !Verify_name_unfold, !sanitize_app.
  rewrite decide_False by assumption. rewrite decide_True by reflexivity.
  change (sanitize "_") with "_". now rewrite !append_assoc.
Qed.

(** X3.  For one discriminator, two tests share a golden file exactly when
    their identifiers are equal after sanitising. *)
Theorem Verify_name_test_identifier (t1 t2 s_name : string) :
  Verify_name t1 s_name = Verify_name t2 s_name ↔ sanitize t1 = sanitize t2.
Proof.
  rewrite !Verify_name_unfold. split.
  - intros Heq. apply (inj (String.app "testdata/")) in Heq.
    rewrite <- !append_assoc in Heq.
    now apply append_cancel_r, append_cancel_r in Heq.
  - now intros ->.
Qed.

(** ** diffString *)

(** X4.  [diffString] compares the texts its arguments are coerced to:
    it is empty exactly when they are equal.  In particular it does not
    tell a string from a value that is rendered as that string. *)
Theorem diffString_empty_iff `{Env} (a b : any other) :
  difflib_empty_iff_equal →
  difflib_SplitLines_inj →
  diffString a b = "" ↔ coerceToString a = coerceToString b.
Proof.
  intros Hdiff Hlines. unfold diffString. split.
  - intros Hempty. apply Hlines. now apply Hdiff.
  - intros Heq. apply Hdiff. now rewrite Heq.
Qed.

(** ** Runs of capture calls *)

Section RunProperties.
Context `{Env}.

Implicit Types (h : gmap loc (list (any other))) (s : Snapshotter).

(** One call either files one report and leaves the entries alone, or
    files none and appends its entry. *)
Lemma Snapshot_step (n : string) (values : loc) h s :
  (∃ r, T_errors (t (Snapshot n values h s).2) = T_errors (t s) ++ [r]
        ∧ snapshots (Snapshot n values h s).2 = snapshots s)
  ∨ (T_errors (t (Snapshot n values h s).2) = T_errors (t s)
     ∧ snapshots (Snapshot n values h s).2
       = snapshots s ++ [{| Name := n; Values := values |}]).
Proof.
  destruct (normalize_cases (index h values))
    as [(rs & Hall)|(pre & v & post & pre' & err & Hidx & Hpre & Herr)].
  - right.
    destruct (Snapshot_range_all n values (index h values)
                [] rs h (t s) eq_refl Hall) as (h' & Hrun & _ & _).
    unfold Snapshot. cbn [length] in Hrun. rewrite Hrun. split; reflexivity.
  - left.
    destruct (Snapshot_range_first_failure n values pre v post err
                [] pre' h (t s) Hidx Hpre Herr) as (h' & Hrun & _ & _).
    unfold Snapshot. rewrite Hidx. cbn [length] in Hrun. rewrite Hrun.
    eexists. split; reflexivity.
Qed.

(** X5.  Every capture call is accounted for once: after a run of calls
    the Snapshotter holds its earlier entries followed by new ones, its
    test handle holds the earlier reports followed by new ones, the new
    entries and the new reports are together as many as the calls, and the
    new entries are calls of the run in the order they were made. *)
Theorem run_accounting (calls : list (string * loc)) :
  ∀ h s,
    ∃ (entries : list snapshot) (extra : list report),
      snapshots (run calls h s).2 = snapshots s ++ entries
      ∧ T_errors (t (run calls h s).2) = T_errors (t s) ++ extra
      ∧ length entries + length extra = length calls
      ∧ entries `sublist_of` map (λ c, {| Name := c.1; Values := c.2 |}) calls.
Proof.
  induction calls as [|[n values] calls IH]; intros h s.
  - exists [], []. cbn. rewrite !app_nil_r. repeat split. constructor.
  - cbn [run]. destruct (Snapshot n values h s) as [h' s'] eqn:Hsnap.
    destruct (IH h' s') as (entries & extra & Hsnaps & Herrs & Hlen & Hsub).
    destruct (Snapshot_step n values h s) as [(r & Hr & Hsame)|(Hsame & Happ)];
      rewrite Hsnap in *; cbn [snd] in *.
    + exists entries, (r :: extra).
      rewrite Hsnaps, Herrs, Hr, Hsame, <- app_assoc.
      repeat split; [cbn; lia|]. cbn [map]. now apply sublist_cons.
    + exists ({| Name := n; Values := values |} :: entries), extra.
      rewrite Hsnaps, Herrs, Hsame, Happ, <- app_assoc.
      repeat split; [cbn; lia|]. cbn [map]. now apply sublist_skip.
Qed.

(** X6.  Capturing a slice that already holds normalised values (a slice
    that an earlier call has rewritten) reports nothing, appends the entry,
    and leaves the contents of every slice as they are. *)
Theorem Snapshot_recapture (n : string) (values : loc) h s :
  json_generic_stable →
  Forall normalized (index h values) →
  T_errors (t (Snapshot n values h s).2) = T_errors (t s)
  ∧ snapshots (Snapshot n values h s).2
    = snapshots s ++ [{| Name := n; Values := values |}]
  ∧ ∀ l, index (Snapshot n values h s).1 l = index h l.
Proof.
  intros Hstable Hnorm.
  destruct (Snapshot_normalized n values h s Hstable Hnorm) as [Herrs Hidx].
  split; [exact Herrs|]. split; [|exact Hidx].
  destruct (Snapshot_step n values h s) as [(r & Hr & _)|[_ Happ]]; [|exact Happ].
  rewrite Herrs in Hr. symmetry in Hr. now apply errors_not_longer in Hr.
Qed.

End RunProperties.

(** ** Verify, continued *)

Section VerifyFurther.
Context `{Env}.

Implicit Types (h : gmap loc (list (any other))) (s : Snapshotter) (w : World).

Lemma Errorf_twice (t0 : T) (entry diff : string) :
  T_errors
    (Errorf
       (Errorf t0 ("snapshot %s differs:" +:+ LF +:+ "%s")
          [ArgString entry; ArgString diff])
       rewriteHint [])
  = T_errors t0 ++ mismatch_reports entry diff.
Proof. unfold Errorf, mismatch_reports. cbn. now rewrite <- app_assoc. Qed.

(** The three ways the body of the loop ends. *)
Lemma Verify_body_cases h (expected : list (option (snapshot_data other)))
    (actual_i : snapshot) (i : nat) (t0 : T) :
  (Verify_body h expected actual_i i t0 = (Panic, t0)
   ∧ ∀ e, expected !! i ≠ Some (Some e))
  ∨ Verify_body h expected actual_i i t0 = (Next, t0)
  ∨ ∃ fl diff,
      fl ≠ Panic ∧ diff ≠ ""
      ∧ Verify_body h expected actual_i i t0
        = (fl,
           Errorf
             (Errorf t0 ("snapshot %s differs:" +:+ LF +:+ "%s")
                [ArgString (Name actual_i); ArgString diff])
             rewriteHint []).
Proof.
  unfold Verify_body.
  destruct (expected !! i) as [[e|]|]; [|left; split; [reflexivity|congruence]..].
  right.
  assert (∀ r : flow * T,
            r = (if decide (diffString (GoSlice (data_Values e))
                              (GoSlice (index h (Values actual_i))) ≠ "")
                 then (Next,
                       Errorf
                         (Errorf t0 ("snapshot %s differs:" +:+ LF +:+ "%s")
                            [ArgString (Name actual_i);
                             ArgString (diffString (GoSlice (data_Values e))
                                          (GoSlice (index h (Values actual_i))))])
                         rewriteHint [])
                 else (Next, t0)) →
            r = (Next, t0)
            ∨ ∃ fl diff,
                fl ≠ Panic ∧ diff ≠ ""
                ∧ r = (fl,
                       Errorf
                         (Errorf t0 ("snapshot %s differs:" +:+ LF +:+ "%s")
                            [ArgString (Name actual_i); ArgString diff])
                         rewriteHint [])) as Hgeneric.
  { intros r ->. case_decide; [right|left; reflexivity].
    eexists Next, _. split; [discriminate|]. split; [eassumption|reflexivity]. }
  repeat case_match;
    first
      [ apply Hgeneric; reflexivity
      | right; eexists Return, _; split; [discriminate|];
        split; [eassumption|reflexivity] ].
Qed.

(** What the loop leaves in the test handle: the name and the helper count
    as they were, and after the earlier reports one pair (diff, hint) for
    some of the entries, in their order, each diff not empty. *)
Lemma Verify_range_reports h (expected : list (option (snapshot_data other)))
    (actual : list snapshot) :
  ∀ (i : nat) (t0 : T),
    T_Name (Verify_range h expected actual i t0).2 = T_Name t0
    ∧ T_helpers (Verify_range h expected actual i t0).2 = T_helpers t0
    ∧ ∃ ds : list (string * string),
        T_errors (Verify_range h expected actual i t0).2
        = T_errors t0 ++ concat (map (λ p, mismatch_reports p.1 p.2) ds)
        ∧ map fst ds `sublist_of` map Name actual
        ∧ Forall (λ p, p.2 ≠ "") ds.
Proof.
  induction actual as [|a actual IH]; intros i t0.
  - cbn. repeat split. exists []. cbn. rewrite app_nil_r. repeat split; constructor.
  - cbn [Verify_range].
    destruct (Verify_body_cases h expected a i t0)
      as [[-> _]|[->|(fl & diff & Hfl & Hdiff & ->)]].
    + cbn. repeat split. exists []. cbn. rewrite app_nil_r.
      repeat split; [apply sublist_nil_l|constructor].
    + destruct (IH (S i) t0) as (HN & HH & ds & Herrs & Hsub & Hne).
      split; [exact HN|]. split; [exact HH|].
      exists ds. split; [exact Herrs|]. split; [|exact Hne].
      cbn [map]. now apply sublist_cons.
    + set (t1 := Errorf (Errorf t0 _ _) rewriteHint []).
      assert (T_errors t1 = T_errors t0 ++ mismatch_reports (Name a) diff) as Ht1
        by apply Errorf_twice.
      destruct fl; [|clear IH|contradiction].
      * destruct (IH (S i) t1) as (HN & HH & ds & Herrs & Hsub & Hne).
        split; [exact HN|]. split; [exact HH|].
        exists ((Name a, diff) :: ds). split; [|split].
        -- rewrite Herrs, Ht1, <- app_assoc. reflexivity.
        -- cbn [map fst]. now apply sublist_skip.
        -- now constructor.
      * cbn [snd]. repeat split.
        exists [(Name a, diff)]. split; [|split].
        -- rewrite Ht1. reflexivity.
        -- cbn [map fst]. apply sublist_skip, sublist_nil_l.
        -- now repeat constructor.
Qed.

(** X7.  Compare mode never touches the file system. *)
Theorem Verify_compare_keeps_files h w s :
  (Verify false h w s).1.2 = w.
Proof.
  unfold Verify.
  repeat case_match; reflexivity.
Qed.

(** X8.  In either mode [Verify] leaves the Snapshotter's discriminator,
    entries and test name as they are, calls [Helper] once, and only adds
    reports after the ones the test handle holds. *)
Theorem Verify_keeps_snapshotter (rewrite : bool) h w s :
  name (Verify rewrite h w s).2 = name s
  ∧ snapshots (Verify rewrite h w s).2 = snapshots s
  ∧ T_Name (t (Verify rewrite h w s).2) = T_Name (t s)
  ∧ T_helpers (t (Verify rewrite h w s).2) = S (T_helpers (t s))
  ∧ ∃ extra, T_errors (t (Verify rewrite h w s).2) = T_errors (t s) ++ extra.
Proof.
  unfold Verify.
  repeat case_match; subst; cbn;
    try (repeat split; first [ by exists [] ; rewrite app_nil_r
                             | by eexists ]).
  match goal with
  | Hr : Verify_range ?h0 ?e ?a ?i ?t1 = _ |- _ =>
      destruct (Verify_range_reports h0 e a i t1) as (HN & HH & ds & Herrs & _);
      rewrite Hr in HN, HH, Herrs; cbn in HN, HH, Herrs
  end.
  repeat split; try assumption. eexists. exact Herrs.
Qed.

(** X9.  Rewrite mode never panics and files at most one report. *)
Theorem Verify_rewrite_reports_once h w s :
  (Verify true h w s).1.1 ≠ Panic
  ∧ ∃ extra,
      T_errors (t (Verify true h w s).2) = T_errors (t s) ++ extra
      ∧ (length extra ≤ 1)%nat.
Proof.
  unfold Verify.
  repeat case_match; subst; cbn; (split; [discriminate|]);
    first [ by (exists []; rewrite app_nil_r; split; [reflexivity|cbn; lia])
          | by (eexists [_]; split; [reflexivity|cbn; lia]) ].
Qed.

(** X10.  A rewrite of at least one entry that files no report has written
    the golden file: what is read back from the path afterwards is the
    encoding of the captured entries with the values their slices hold. *)
Theorem Verify_rewrite_written h w s :
  read_after_write →
  snapshots s ≠ [] →
  T_errors (t (Verify true h w s).2) = T_errors (t s) →
  (Verify true h w s).1.1 = Next
  ∧ ∃ bs,
      json_MarshalIndent (map (load h) (snapshots s)) "" "  " = Ok bs
      ∧ ioutil_ReadFile (Verify true h w s).1.2
          (Verify_name (T_Name (t s)) (name s)) = Ok bs.
Proof.
  intros Hfs Hsome Hquiet. unfold Verify in *.
  destruct (decide (length (snapshots s) = 0)) as [Hlen|_].
  { destruct (snapshots s); [contradiction|discriminate]. }
  destruct (os_MkdirAll w "testdata" 493) as [w1 [err|]].
  { cbn in Hquiet. now apply errors_not_longer in Hquiet. }
  destruct (json_MarshalIndent (map (load h) (snapshots s)) "" "  ") as [bs|err].
  2:{ cbn in Hquiet. now apply errors_not_longer in Hquiet. }
  destruct (ioutil_WriteFile w1 _ bs 420) as [w2 [err|]] eqn:Hwrite.
  { cbn in Hquiet. now apply errors_not_longer in Hquiet. }
  cbn. split; [reflexivity|]. exists bs. split; [reflexivity|].
  exact (Hfs _ _ _ _ _ Hwrite).
Qed.

End VerifyFurther.

(** ** Compare mode *)

Section CompareMode.
Context `{Env}.

Implicit Types (h : gmap loc (list (any other))) (s : Snapshotter) (w : World).

Lemma Verify_expectedNames_nil_entry
    (expected : list (option (snapshot_data other))) :
  In None expected → Verify_expectedNames expected = None.
Proof.
  induction expected as [|[e|] expected IH]; intros Hin; cbn.
  - destruct Hin.
  - destruct Hin as [Hin|Hin]; [discriminate|]. now rewrite IH.
  - reflexivity.
Qed.

(** X11.  A golden file one of whose elements decodes to a nil entry (a
    JSON [null] in the array) makes [Verify] panic in compare mode, while
    it collects the names and before it has reported anything. *)
Theorem Verify_compare_nil_entry h w s (bs : bytes)
    (expected : list (option (snapshot_data other))) :
  os_IsNotExist (os_Stat w (Verify_name (T_Name (t s)) (name s))) = false →
  ioutil_ReadFile w (Verify_name (T_Name (t s)) (name s)) = Ok bs →
  json_Unmarshal_snapshots bs = Ok expected →
  In None expected →
  (Verify false h w s).1.1 = Panic
  ∧ T_errors (t (Verify false h w s).2) = T_errors (t s).
Proof.
  intros Hthere Hread Hdec Hnil. unfold Verify.
  rewrite Hthere, Hread, Hdec. cbn [andb].
  rewrite (Verify_expectedNames_nil_entry expected Hnil). split; reflexivity.
Qed.

(** The loop does not panic while the expected entries last. *)
Lemma Verify_range_in_range h (entries : list (snapshot_data other))
    (actual : list snapshot) :
  ∀ (i : nat) (t0 : T),
    (i + length actual ≤ length entries)%nat →
    (Verify_range h (map Some entries) actual i t0).1 ≠ Panic.
Proof.
  induction actual as [|a actual IH]; intros i t0 Hlen; [discriminate|].
  cbn [Verify_range length] in *.
  destruct (Verify_body_cases h (map Some entries) a i t0)
    as [[_ Hout]|[->|(fl & diff & Hfl & _ & ->)]].
  - exfalso. destruct (lookup_lt_is_Some_2 entries i) as [e He]; [lia|].
    apply (Hout e). change (map Some entries) with (Some <$> entries).
    now rewrite list_lookup_fmap, He.
  - apply IH. lia.
  - destruct fl; [apply IH; lia|discriminate|contradiction].
Qed.

(** X12.  With a golden file whose elements all decode to entries,
    compare mode never panics: the loop indexes the expected entries only
    after the two name sequences were found equal, hence of equal length. *)
Theorem Verify_compare_no_panic h w s (bs : bytes)
    (entries : list (snapshot_data other)) :
  difflib_empty_iff_equal →
  difflib_SplitLines_inj →
  pretty_Sprint_names_inj →
  ioutil_ReadFile w (Verify_name (T_Name (t s)) (name s)) = Ok bs →
  json_Unmarshal_snapshots bs = Ok (map Some entries) →
  (Verify false h w s).1.1 ≠ Panic.
Proof.
  intros Hdiff Hlines Hpretty Hread Hdec. unfold Verify.
  destruct (os_IsNotExist _ && _); [discriminate|].
  rewrite Hread, Hdec, Verify_expectedNames_Some. unfold Verify_actualNames.
  case_decide as Hnames; [discriminate|].
  assert (map data_Name entries = map Name (snapshots s)) as Heq.
  { apply Hpretty, Hlines, Hdiff.
    destruct (decide (diffString (GoStrings (map data_Name entries))
                        (GoStrings (map Name (snapshots s))) = "")) as [Hd|Hd];
      [exact Hd|contradiction]. }
  pose proof (Verify_range_in_range h entries (snapshots s) 0 (Helper (t s))) as Hloop.
  destruct (Verify_range h (map Some entries) (snapshots s) 0 (Helper (t s))).
  cbn in *. apply Hloop.
  apply (f_equal length) in Heq. rewrite !length_map in Heq. lia.
Qed.

(** The body of the loop, when it adds no report, has found the rendered
    values of the two entries equal. *)
Lemma Verify_body_silent h (expected : list (option (snapshot_data other)))
    (actual_i : snapshot) (i : nat) (t0 : T) (e : snapshot_data other) :
  expected !! i = Some (Some e) →
  T_errors (Verify_body h expected actual_i i t0).2 = T_errors t0 →
  Verify_body h expected actual_i i t0 = (Next, t0)
  ∧ diffString (GoSlice (data_Values e)) (GoSlice (index h (Values actual_i))) = "".
Proof.
  intros Hexp. unfold Verify_body. rewrite Hexp.
  repeat case_match; cbn [snd]; intros Hquiet;
    try (rewrite Errorf_twice in Hquiet; now apply errors_not_longer in Hquiet).
  all: split; [reflexivity|].
  all: match goal with
       | Hn : ¬ ?d ≠ "" |- ?d = "" => now destruct (decide (d = ""))
       end.
Qed.

Lemma Verify_range_silent h (entries : list (snapshot_data other))
    (actual : list snapshot) :
  ∀ (i : nat) (t0 : T),
    (i + length actual ≤ length entries)%nat →
    T_errors (Verify_range h (map Some entries) actual i t0).2 = T_errors t0 →
    (Verify_range h (map Some entries) actual i t0).1 = Next
    ∧ ∀ k a e,
        actual !! k = Some a → entries !! (i + k) = Some e →
        diffString (GoSlice (data_Values e)) (GoSlice (index h (Values a))) = "".
Proof.
  induction actual as [|a actual IH]; intros i t0 Hlen Hquiet.
  - split; [reflexivity|]. intros k a e Hk. discriminate.
  - cbn [Verify_range length] in *.
    destruct (lookup_lt_is_Some_2 entries i) as [e He]; [lia|].
    assert (map Some entries !! i = Some (Some e)) as Hexp.
    { change (map Some entries) with (Some <$> entries).
      now rewrite list_lookup_fmap, He. }
    assert (T_errors (Verify_body h (map Some entries) a i t0).2 = T_errors t0)
      as Hbody.
    { destruct (Verify_body_cases h (map Some entries) a i t0)
        as [[-> _]|[->|(fl & diff & Hfl & _ & Hb)]]; [reflexivity..|].
      exfalso. rewrite Hb in Hquiet.
      destruct fl; [|cbn [snd] in Hquiet|contradiction].
      - destruct (Verify_range_reports h (map Some entries) actual (S i)
                    (Errorf
                       (Errorf t0 ("snapshot %s differs:" +:+ LF +:+ "%s")
                          [ArgString (Name a); ArgString diff])
                       rewriteHint []))
          as (_ & _ & ds & Herrs & _).
        rewrite Herrs, Errorf_twice, <- app_assoc in Hquiet.
        now apply errors_not_longer in Hquiet.
      - rewrite Errorf_twice in Hquiet. now apply errors_not_longer in Hquiet. }
    destruct (Verify_body_silent h (map Some entries) a i t0 e Hexp Hbody)
      as [Hb Hd].
    rewrite Hb in Hquiet |- *.
    destruct (IH (S i) t0) as [Hfl Hrest]; [lia|exact Hquiet|].
    split; [exact Hfl|].
    intros [|k] a' e' Hk Hk'.
    + cbn in Hk. injection Hk as <-. rewrite Nat.add_0_r, He in Hk'.
      now injection Hk' as <-.
    + cbn in Hk. apply (Hrest k a' e' Hk). now rewrite Nat.add_succ_comm.
Qed.

End CompareMode.

Section CompareOutcome.
Context `{Env}.

Implicit Types (h : gmap loc (list (any other))) (s : Snapshotter) (w : World).

(** X13.  A comparison that files no report has found what it claims: with
    the golden file present and decoded to entries, compare mode adds no
    report only if the names of the golden entries are the names of the
    captured ones, in order, and at every position the diff of the
    rendered values is empty; [Verify] then runs to its end. *)
Theorem Verify_compare_silent h w s (bs : bytes)
    (entries : list (snapshot_data other)) :
  difflib_empty_iff_equal →
  difflib_SplitLines_inj →
  pretty_Sprint_names_inj →
  os_IsNotExist (os_Stat w (Verify_name (T_Name (t s)) (name s))) = false →
  ioutil_ReadFile w (Verify_name (T_Name (t s)) (name s)) = Ok bs →
  json_Unmarshal_snapshots bs = Ok (map Some entries) →
  T_errors (t (Verify false h w s).2) = T_errors (t s) →
  (Verify false h w s).1.1 = Next
  ∧ map data_Name entries = map Name (snapshots s)
  ∧ ∀ i e a,
      entries !! i = Some e → snapshots s !! i = Some a →
      diffString (GoSlice (data_Values e)) (GoSlice (index h (Values a))) = "".
Proof.
  intros Hdiff Hlines Hpretty Hthere Hread Hdec. unfold Verify.
  rewrite Hthere, Hread, Hdec, Verify_expectedNames_Some. cbn [andb].
  unfold Verify_actualNames.
  case_decide as Hnames.
  { cbn. intros Hquiet. now apply errors_not_longer in Hquiet. }
  assert (map data_Name entries = map Name (snapshots s)) as Heq.
  { apply Hpretty, Hlines, Hdiff.
    destruct (decide (diffString (GoStrings (map data_Name entries))
                        (GoStrings (map Name (snapshots s))) = "")) as [Hd|Hd];
      [exact Hd|contradiction]. }
  pose proof (Verify_range_silent h entries (snapshots s) 0 (Helper (t s))) as Hloop.
  destruct (Verify_range h (map Some entries) (snapshots s) 0 (Helper (t s)))
    as [fl t'].
  cbn in *. intros Hquiet.
  destruct Hloop as [-> Hall]; [|exact Hquiet|].
  { apply (f_equal length) in Heq. rewrite !length_map in Heq. lia. }
  split; [reflexivity|]. split; [exact Heq|].
  intros i e a He Ha. exact (Hall i a e Ha He).
Qed.

(** X14.  What compare mode can add to the reports: either one report
    (the golden file could not be read, could not be decoded, or names
    other entries), or, for some of the captured entries in their order, a
    diff that is not empty, each followed at once by the hint.  The report
    of differing names comes without the hint. *)
Theorem Verify_compare_reports h w s :
  (∃ r,
      T_errors (t (Verify false h w s).2) = T_errors (t s) ++ [r]
      ∧ args r ≠ []
      ∧ In (format r)
          ["error reading snapshots: %s"; "error unmarshaling snapshots: %s";
           "snapshot names differ:" +:+ LF +:+ "%s"])
  ∨ (∃ ds : list (string * string),
      T_errors (t (Verify false h w s).2)
      = T_errors (t s) ++ concat (map (λ p, mismatch_reports p.1 p.2) ds)
      ∧ map fst ds `sublist_of` map Name (snapshots s)
      ∧ Forall (λ p, p.2 ≠ "") ds).
Proof.
  assert (∃ ds : list (string * string),
            T_errors (Helper (t s))
            = T_errors (t s) ++ concat (map (λ p, mismatch_reports p.1 p.2) ds)
            ∧ map fst ds `sublist_of` map Name (snapshots s)
            ∧ Forall (λ p, p.2 ≠ "") ds) as Hnone.
  { exists []. cbn. rewrite app_nil_r. repeat split; [apply sublist_nil_l|constructor]. }
  unfold Verify.
  destruct (os_IsNotExist _ && _); [right; exact Hnone|].
  destruct (ioutil_ReadFile w _) as [bs|err].
  2:{ left. eexists. cbn. split; [reflexivity|]. split; [discriminate|]. now left. }
  destruct (json_Unmarshal_snapshots bs) as [expected|err].
  2:{ left. eexists. cbn. split; [reflexivity|]. split; [discriminate|].
      right. now left. }
  destruct (Verify_expectedNames expected) as [expectedNames|];
    [|right; exact Hnone].
  case_decide.
  { left. eexists. cbn. split; [reflexivity|]. split; [discriminate|].
    right. right. now left. }
  right.
  destruct (Verify_range_reports h expected (snapshots s) 0 (Helper (t s)))
    as (_ & _ & ds & Herrs & Hsub & Hne).
  destruct (Verify_range h expected (snapshots s) 0 (Helper (t s))) as [fl t'].
  exists ds. cbn in *. auto.
Qed.

Lemma Verify_range_entries h h' (expected : list (option (snapshot_data other)))
    (actual : list snapshot) :
  (∀ e, In e actual → index h' (Values e) = index h (Values e)) →
  ∀ (i : nat) (t0 : T),
    Verify_range h' expected actual i t0 = Verify_range h expected actual i t0.
Proof.
  induction actual as [|a actual IH]; intros Hidx i t0; [reflexivity|].
  cbn [Verify_range].
  assert (Verify_body h' expected a i t0 = Verify_body h expected a i t0) as ->.
  { unfold Verify_body. rewrite Hidx by now left. reflexivity. }
  destruct (Verify_body h expected a i t0) as [[] t']; [|reflexivity..].
  apply IH. intros e He. apply Hidx. now right.
Qed.

(** X15.  [Verify] reads the store only through the slices of the
    captured entries, and reads them when it runs: on two stores in which
    those slices hold the same values it does the same, and what a slice of
    an entry holds at that time (not at the time of [Snapshot]) is what is
    written or compared. *)
Theorem Verify_reads_entries (rewrite : bool) h h' w s :
  (∀ e, In e (snapshots s) → index h' (Values e) = index h (Values e)) →
  Verify rewrite h' w s = Verify rewrite h w s.
Proof.
  intros Hidx. unfold Verify.
  assert (map (load h') (snapshots s) = map (load h) (snapshots s)) as ->.
  { apply map_ext_in. intros e He. unfold load. now rewrite Hidx. }
  destruct rewrite; [reflexivity|].
  destruct (os_IsNotExist _ && _); [reflexivity|].
  destruct (ioutil_ReadFile _ _) as [bs|]; [|reflexivity].
  destruct (json_Unmarshal_snapshots bs) as [expected|]; [|reflexivity].
  destruct (Verify_expectedNames expected); [|reflexivity].
  case_decide; [reflexivity|].
  now rewrite (Verify_range_entries h h').
Qed.

End CompareOutcome.

(** ** The further properties on concrete runs *)

Section FurtherRuns.
#[local] Existing Instance ref_Env.

Lemma Verify_name_boundary_witness :
  Verify_name "TestA" "x" = Verify_name "TestA_x" "".
Proof. apply Verify_name_boundary. discriminate. Defined.

(** The string [[]] and the empty name sequence, rendered [[]], are not
    told apart. *)
Lemma diffString_empty_iff_witness :
  diffString (H := ref_Env) (GoString "[]") (GoStrings []) = "".
Proof.
  apply (diffString_empty_iff (H := ref_Env) (GoString "[]") (GoStrings [])).
  - exact ref_difflib_empty_iff_equal.
  - exact ref_difflib_SplitLines_inj.
  - reflexivity.
Defined.

(** The slice at 4 holds the [float64] 3. *)
Lemma Snapshot_recapture_witness :
  T_errors (t (Snapshot "a" 4%positive ref_store (New (ref_T "TestA"))).2) = []
  ∧ snapshots (Snapshot "a" 4%positive ref_store (New (ref_T "TestA"))).2
    = [{| Name := "a"; Values := 4%positive |}]
  ∧ ∀ l, index (Snapshot "a" 4%positive ref_store (New (ref_T "TestA"))).1 l
         = index ref_store l.
Proof.
  apply (Snapshot_recapture (H := ref_Env) "a" 4%positive ref_store
           (New (ref_T "TestA"))).
  - exact ref_json_generic_stable.
  - constructor; [|constructor]. exists (JNumber 3). reflexivity.
Defined.

Lemma Verify_rewrite_written_witness :
  ioutil_ReadFile (Verify true ref_store ref_empty ref_captured).1.2
    "testdata/TestA.snapshots.json"
  = Ok (ref_golden "a" 3 "b" 4).
Proof.
  destruct (Verify_rewrite_written (H := ref_Env) ref_store ref_empty ref_captured
              ref_read_after_write) as [_ (bs & Henc & Hread)].
  - discriminate.
  - reflexivity.
  - injection Henc as <-. exact Hread.
Defined.

(** A golden file that is the array of one [null]. *)
Lemma Verify_compare_nil_entry_witness :
  (Verify false ref_store
     (ref_with_file "testdata/TestA.snapshots.json" (JArray [JNull]) ∅)
     ref_captured).1.1 = Panic
  ∧ T_errors
      (t (Verify false ref_store
            (ref_with_file "testdata/TestA.snapshots.json" (JArray [JNull]) ∅)
            ref_captured).2) = [].
Proof.
  apply (Verify_compare_nil_entry (H := ref_Env) ref_store
           (ref_with_file "testdata/TestA.snapshots.json" (JArray [JNull]) ∅)
           ref_captured (JArray [JNull]) [None]).
  - reflexivity.
  - reflexivity.
  - reflexivity.
  - now left.
Defined.

Lemma Verify_compare_no_panic_witness :
  (Verify false ref_store
     (ref_with_file "testdata/TestA.snapshots.json" (ref_golden "a" 1 "b" 2) ∅)
     ref_captured).1.1 ≠ Panic
  ∧ (Verify false ref_store
       (ref_with_file "testdata/TestA.snapshots.json" (ref_golden "a" 1 "b" 2) ∅)
       ref_captured).1.1 = Next.
Proof.
  split; [|reflexivity].
  apply (Verify_compare_no_panic (H := ref_Env) ref_store
           (ref_with_file "testdata/TestA.snapshots.json" (ref_golden "a" 1 "b" 2) ∅)
           ref_captured (ref_golden "a" 1 "b" 2)
           [SnapshotData "a" [GoOther (Float64 1)];
            SnapshotData "b" [GoOther (Float64 2)]]).
  - exact ref_difflib_empty_iff_equal.
  - exact ref_difflib_SplitLines_inj.
  - exact ref_pretty_Sprint_names_inj.
  - reflexivity.
  - reflexivity.
Defined.

(** The golden file holds what was captured. *)
Lemma Verify_compare_silent_witness :
  (Verify false ref_store
     (ref_with_file "testdata/TestA.snapshots.json" (ref_golden "a" 3 "b" 4) ∅)
     ref_captured).1.1 = Next
  ∧ diffString (H := ref_Env) (GoSlice [GoOther (Float64 4)])
      (GoSlice (index ref_store 5%positive)) = "".
Proof.
  destruct (Verify_compare_silent (H := ref_Env) ref_store
              (ref_with_file "testdata/TestA.snapshots.json" (ref_golden "a" 3 "b" 4) ∅)
              ref_captured (ref_golden "a" 3 "b" 4)
              [SnapshotData "a" [GoOther (Float64 3)];
               SnapshotData "b" [GoOther (Float64 4)]]
              ref_difflib_empty_iff_equal ref_difflib_SplitLines_inj
              ref_pretty_Sprint_names_inj eq_refl eq_refl eq_refl eq_refl)
    as (Hflow & _ & Hall).
  split; [exact Hflow|].
  exact (Hall 1 (SnapshotData "b" [GoOther (Float64 4)])
           {| Name := "b"; Values := 5%positive |} eq_refl eq_refl).
Defined.

(** A write to a slice that no entry uses does not change what [Verify]
    does. *)
Lemma Verify_reads_entries_witness :
  Verify false (<[1%positive := [GoString "changed"]]> ref_store)
    (ref_with_file "testdata/TestA.snapshots.json" (ref_golden "a" 3 "b" 4) ∅)
    ref_captured
  = Verify false ref_store
      (ref_with_file "testdata/TestA.snapshots.json" (ref_golden "a" 3 "b" 4) ∅)
      ref_captured.
Proof.
  apply (Verify_reads_entries (H := ref_Env)).
  intros e [<-|[<-|[]]]; reflexivity.
Defined.

End FurtherRuns.

(** * Idempotence of the normaliser *)

(** ** Maps in key order *)

Lemma key_lt_trans (a b c : string) : key_lt a b → key_lt b c → key_lt a c.
Proof.
  intros [Hab Hne] [Hbc Hne']. split.
  - now transitivity b.
  - intros ->. apply Hne. now apply (anti_symm String.le).
Qed.

Lemma key_lt_total (a b : string) : a ≠ b → ¬ String.le a b → key_lt b a.
Proof.
  intros Hne Hle. split; [|congruence].
  destruct (total String.le a b); [contradiction|assumption].
Qed.

Lemma map_insert_elem {V : Type} (k : string) (v : V) (m : list (string * V))
    (x : string * V) :
  In x (map_insert k v m) → x = (k, v) ∨ In x m.
Proof.
  induction m as [|[k' v'] m IH]; cbn; intros Hin.
  - destruct Hin as [<-|[]]. now left.
  - repeat case_decide; cbn in Hin.
    + destruct Hin as [<-|Hin]; auto.
    + destruct Hin as [<-|Hin]; auto.
    + destruct Hin as [<-|Hin]; [auto|]. destruct (IH Hin); auto.
Qed.

(** Assigning to a key keeps the bindings in increasing key order. *)
Lemma map_insert_sorted {V : Type} (k : string) (v : V) (m : list (string * V)) :
  sorted_keys m → sorted_keys (map_insert k v m).
Proof.
  induction m as [|[k' v'] m IH]; cbn; intros Hs.
  - split; [constructor|exact I].
  - destruct Hs as [Hall Hs]. repeat case_decide; cbn.
    + subst. split; assumption.
    + split; [|split; assumption].
      constructor; [split; assumption|].
      eapply Forall_impl; [exact Hall|]. intros x Hx. cbn in *.
      apply key_lt_trans with k'; [split; assumption|exact Hx].
    + split; [|now apply IH].
      apply Forall_forall. intros x Hx.
      apply list_elem_of_In, map_insert_elem in Hx as [->|Hx].
      * cbn. now apply key_lt_total.
      * rewrite Forall_forall in Hall. apply Hall. now apply list_elem_of_In.
Qed.

Lemma map_insert_last {V : Type} (k : string) (v : V) (m : list (string * V)) :
  Forall (λ x, key_lt x.1 k) m → map_insert k v m = m ++ [(k, v)].
Proof.
  induction 1 as [|[k' v'] m [Hle Hne] _ IH]; [reflexivity|]. cbn in *.
  rewrite decide_False by congruence.
  rewrite decide_False.
  - now rewrite IH.
  - intros Hle'. apply Hne. now apply (anti_symm String.le).
Qed.

(** Building a map from bindings that are already in increasing key order
    gives these bindings. *)
Lemma map_build_sorted {V : Type} (m : list (string * V)) :
  sorted_keys m →
  ∀ acc, Forall (λ a, Forall (λ x, key_lt a.1 x.1) m) acc →
    fold_left (λ m kv, map_insert kv.1 kv.2 m) m acc = acc ++ m.
Proof.
  induction m as [|[k v] m IH]; intros Hs acc Hacc; cbn.
  - now rewrite app_nil_r.
  - destruct Hs as [Hall Hs]. cbn in Hall.
    rewrite map_insert_last.
    + rewrite IH; [now rewrite <- app_assoc|exact Hs|].
      apply Forall_app. split.
      * eapply Forall_impl; [exact Hacc|]. intros a Ha.
        now apply Forall_cons in Ha as [_ Ha].
      * constructor; [exact Hall|constructor].
    + eapply Forall_impl; [exact Hacc|]. intros a Ha.
      now apply Forall_cons in Ha as [Ha _].
Qed.

(** A map built from any bindings is in increasing key order, and holds
    only bindings it was given. *)
Lemma map_build_props {V : Type} (P : string * V → Prop) (kvs : list (string * V)) :
  ∀ acc, Forall P kvs → Forall P acc → sorted_keys acc →
    Forall P (fold_left (λ m kv, map_insert kv.1 kv.2 m) kvs acc)
    ∧ sorted_keys (fold_left (λ m kv, map_insert kv.1 kv.2 m) kvs acc).
Proof.
  induction kvs as [|[k v] kvs IH]; intros acc Hk Hacc Hs; cbn; [auto|].
  apply Forall_cons in Hk as [Hkv Hk].
  apply IH; [exact Hk| |now apply map_insert_sorted].
  apply Forall_forall. intros x Hx.
  apply list_elem_of_In, map_insert_elem in Hx as [->|Hx]; [exact Hkv|].
  rewrite Forall_forall in Hacc. apply Hacc. now apply list_elem_of_In.
Qed.

(** ** Decoded values encode and decode to themselves *)

Lemma jdoc_nested_ind {number : Type} (P : jdoc number → Prop) :
  P DNull → (∀ b, P (DBool b)) → (∀ n, P (DNumber n)) → (∀ s, P (DString s)) →
  (∀ l, Forall P l → P (DArray l)) →
  (∀ fields, Forall (λ kj, P kj.2) fields → P (DObject fields)) →
  ∀ j, P j.
Proof.
  intros Hnull Hbool Hnum Hstr Harr Hobj.
  fix IH 1.
  intros [|b|n|s|l|fields];
    [exact Hnull|apply Hbool|apply Hnum|apply Hstr| | ].
  - apply Harr. induction l as [|x l IHl]; constructor; [apply IH|exact IHl].
  - apply Hobj. induction fields as [|[k x] l IHl]; constructor; [apply IH|exact IHl].
Qed.

Section CodecProperties.
Context {raw float64 number E W : Type}.
Context (strconv_FormatFloat : float64 → result E number).
Context (strconv_ParseFloat : number → result E float64).
Context (Marshal_raw : raw → result E (jdoc number)).

Local Abbreviation Marshal := (go_Marshal strconv_FormatFloat Marshal_raw).
Local Abbreviation Unmarshal := (go_Unmarshal (raw := raw) strconv_ParseFloat).
Local Abbreviation stable :=
  (go_stable strconv_FormatFloat strconv_ParseFloat Marshal_raw).

Lemma go_Unmarshal_elements (l : list (jdoc number)) :
  Forall (λ j, ∀ v, Unmarshal j = Ok v → stable v) l →
  ∀ vs, traverse Unmarshal l = Ok vs →
    ∃ js, traverse Marshal vs = Ok js ∧ traverse Unmarshal js = Ok vs.
Proof.
  induction 1 as [|j l Hj _ IH]; intros vs Hdec; cbn in Hdec.
  - injection Hdec as <-. now exists [].
  - destruct (Unmarshal j) as [v|] eqn:Hv; [|discriminate].
    destruct (traverse Unmarshal l) as [vs'|] eqn:Hvs; [|discriminate].
    injection Hdec as <-.
    assert (stable v) as (j' & Henc & Hdec')
      by first [exact (Hj v Hv)|exact (Hj v eq_refl)].
    destruct (IH vs' eq_refl) as (js & Hencs & Hdecs).
    exists (j' :: js). cbn. now rewrite Henc, Hencs, Hdec', Hdecs.
Qed.

(** The bindings decoded from an object have keys in valid UTF-8. *)
Lemma go_Unmarshal_fields (fields : list (string * jdoc number)) :
  Forall (λ kj, ∀ v, Unmarshal kj.2 = Ok v → stable v) fields →
  ∀ kvs,
    traverse (λ kj : string * jdoc number,
                match Unmarshal kj.2 with
                | Ok v => Ok (json_coerce kj.1, v)
                | Err e => Err e
                end) fields = Ok kvs →
    Forall (λ kv, utf8_ValidString kv.1 = true ∧ stable kv.2) kvs.
Proof.
  induction 1 as [|[k j] fields Hj _ IH]; intros kvs Hdec; cbn in Hdec.
  - injection Hdec as <-. constructor.
  - destruct (Unmarshal j) as [v|] eqn:Hv; [|discriminate].
    destruct (traverse _ fields) as [kvs'|] eqn:Hkvs; [|discriminate].
    injection Hdec as <-. constructor; [|now apply IH].
    cbn. split; [|first [exact (Hj v Hv)|exact (Hj v eq_refl)]].
    now apply (utf8_Valid_coerce k 0 128%N 191%N).
Qed.

Lemma go_Marshal_fields (m : list (string * any (go_other raw float64))) :
  Forall (λ kv, utf8_ValidString kv.1 = true ∧ stable kv.2) m →
  ∃ fields,
    traverse (λ kv : string * any (go_other raw float64),
                match Marshal kv.2 with
                | Ok j => Ok (json_coerce kv.1, j)
                | Err e => Err e
                end) m = Ok fields
    ∧ traverse (λ kj : string * jdoc number,
                  match Unmarshal kj.2 with
                  | Ok v => Ok (json_coerce kj.1, v)
                  | Err e => Err e
                  end) fields = Ok m.
Proof.
  induction 1 as [|[k v] m [Hk (j' & Henc & Hdec)] _ (fields & Hencs & Hdecs)].
  - now exists [].
  - simpl in *. exists ((k, j') :: fields). simpl.
    rewrite Henc, Hencs, Hdec, Hdecs.
    rewrite !(json_coerce_valid k Hk). auto.
Qed.

(** What [json.Unmarshal] produces, [json.Marshal] encodes without error
    to a document that decodes to the same value: by induction on the
    document, the numbers by [strconv_stable], the strings because the
    coercion to UTF-8 is idempotent, the maps because the decoder builds
    them in key order, which is the order the encoder writes. *)
Lemma go_Unmarshal_stable :
  strconv_stable strconv_FormatFloat strconv_ParseFloat →
  ∀ j v, Unmarshal j = Ok v → stable v.
Proof.
  intros Hfloat j.
  induction j as [|b|n|s|l IH|fields IH] using jdoc_nested_ind; intros v Hdec;
    cbn in Hdec.
  - injection Hdec as <-. now exists DNull.
  - injection Hdec as <-. now exists (DBool b).
  - destruct (strconv_ParseFloat n) as [f|] eqn:Hf; [|discriminate].
    injection Hdec as <-. destruct (Hfloat n f Hf) as (n' & Hfmt & Hparse).
    exists (DNumber n'). cbn. now rewrite Hfmt, Hparse.
  - injection Hdec as <-. exists (DString (json_coerce (json_coerce s))).
    cbn. now rewrite !json_coerce_idempotent.
  - destruct (traverse Unmarshal l) as [vs|] eqn:Hvs; [|discriminate].
    injection Hdec as <-.
    destruct (go_Unmarshal_elements l IH vs Hvs) as (js & Hencs & Hdecs).
    exists (DArray js). unfold go_Marshal in *. cbn. now rewrite Hencs, Hdecs.
  - destruct (traverse _ fields) as [kvs|] eqn:Hkvs; [|discriminate].
    injection Hdec as <-.
    pose proof (go_Unmarshal_fields fields IH kvs Hkvs) as Hgood.
    destruct (map_build_props _ kvs [] Hgood (Forall_nil_2 _) I) as [Hm Hsorted].
    destruct (go_Marshal_fields _ Hm) as (fields' & Hencs & Hdecs).
    exists (DObject fields'). unfold go_Marshal in *. cbn.
    rewrite Hencs. split; [reflexivity|]. rewrite Hdecs.
    rewrite (map_build_sorted _ Hsorted []) by constructor. reflexivity.
Qed.

Context (MarshalIndent_snapshots :
           list (snapshot_data (go_other raw float64)) → string → string →
           result E (jdoc number)).
Context (Unmarshal_snapshots :
           jdoc number →
           result E (list (option (snapshot_data (go_other raw float64))))).
Context (Sprint : any (go_other raw float64) → string).
Context (SplitLines : string → list string).
Context (GetUnifiedDiffString : UnifiedDiff → string * option E).
Context (Stat : W → string → option E).
Context (IsNotExist : option E → bool).
Context (Remove : W → string → W * option E).
Context (MkdirAll : W → string → Z → W * option E).
Context (WriteFile : W → string → jdoc number → Z → W * option E).
Context (ReadFile : W → string → result E (jdoc number)).

Local Abbreviation env :=
  (go_Env strconv_FormatFloat strconv_ParseFloat Marshal_raw
     MarshalIndent_snapshots Unmarshal_snapshots Sprint SplitLines
     GetUnifiedDiffString Stat IsNotExist Remove MkdirAll WriteFile ReadFile).

Lemma go_json_generic_stable :
  strconv_stable strconv_FormatFloat strconv_ParseFloat →
  json_generic_stable (H := env).
Proof. intros Hfloat j v Hdec. exact (go_Unmarshal_stable Hfloat j v Hdec). Qed.

(** C8.  Normalisation is idempotent: when [jsonRoundTrip] succeeds on a
    value [v] of any type and returns [r], it succeeds on [r] and returns
    [r], so normalising twice is normalising once.  Here [json.Marshal] on
    the types that decoding never produces is arbitrary; of strconv only
    [strconv_stable] is used: a [float64] read from a number is written to
    a number that reads as the same [float64]. *)
Theorem jsonRoundTrip_idempotent (v r : any (go_other raw float64)) :
  strconv_stable strconv_FormatFloat strconv_ParseFloat →
  jsonRoundTrip (H := env) v = Ok r →
  jsonRoundTrip (H := env) r = Ok r.
Proof.
  intros Hfloat Hrt.
  apply (normalized_jsonRoundTrip (H := env)).
  - now apply go_json_generic_stable.
  - now apply (jsonRoundTrip_normalized (H := env)) with v.
Qed.

End CodecProperties.

(** ** The strconv of the instance *)

Section Rounding.
Local Open Scope Z_scope.

(** An integer that already has at most 53 significant bits is kept. *)
Lemma round53_rounded (s q k : Z) :
  (s = 1 ∨ s = -1) → 2 ^ 52 <= q <= 2 ^ 53 → 1 <= k →
  round53 (s * (q * 2 ^ k)) = s * (q * 2 ^ k).
Proof.
  intros Hs Hq Hk.
  assert (0 < 2 ^ k) as Hpk by (apply Z.pow_pos_nonneg; lia).
  assert (0 < 2 ^ (k - 1)) as Hpk1 by (apply Z.pow_pos_nonneg; lia).
  assert (2 ^ k = 2 * 2 ^ (k - 1)) as Hdouble.
  { replace k with (Z.succ (k - 1)) at 1 by lia. apply Z.pow_succ_r. lia. }
  assert (Z.abs (s * (q * 2 ^ k)) = q * 2 ^ k) as Habs.
  { destruct Hs as [-> | ->]; [rewrite Z.abs_eq; nia|].
    rewrite Z.abs_neq; nia. }
  assert (Z.sgn (s * (q * 2 ^ k)) = s) as Hsgn.
  { destruct Hs as [-> | ->].
    - apply Z.sgn_pos. nia.
    - apply Z.sgn_neg. nia. }
  unfold round53. rewrite Habs, Hsgn.
  assert (2 ^ 53 <= q * 2 ^ k) as Hbig.
  { change (2 ^ 53) with (2 ^ 52 * 2). nia. }
  destruct (Z.ltb_spec (q * 2 ^ k) (2 ^ 53)) as [Hlt|_]; [lia|].
  rewrite Z.log2_mul_pow2 by lia.
  destruct (Z.eq_dec q (2 ^ 53)) as [->|Hne].
  - change (Z.log2 (2 ^ 53)) with 53.
    replace (k + 53 - 52) with (k + 1) by lia.
    replace (k + 1 - 1) with k by lia.
    rewrite Z.pow_add_r by lia. change (2 ^ 1) with 2.
    replace (2 ^ 53 * 2 ^ k) with (2 ^ 52 * (2 ^ k * 2))
      by (change (2 ^ 53) with (2 ^ 52 * 2); ring).
    rewrite Z.div_mul, Z.mod_mul by lia.
    destruct (Z.ltb_spec (2 ^ k) 0) as [?|_]; [lia|].
    destruct (Z.eqb_spec 0 (2 ^ k)) as [?|_]; [lia|].
    reflexivity.
  - assert (Z.log2 q = 52) as ->.
    { apply Z.log2_unique; [lia|]. change (Z.succ 52) with 53. lia. }
    replace (k + 52 - 52) with k by lia.
    rewrite Z.div_mul, Z.mod_mul by lia.
    destruct (Z.ltb_spec (2 ^ (k - 1)) 0) as [?|_]; [lia|].
    destruct (Z.eqb_spec 0 (2 ^ (k - 1))) as [?|_]; [lia|].
    reflexivity.
Qed.

(** Rounding a large integer leaves 53 significant bits at most. *)
Lemma round53_shape (z : Z) :
  2 ^ 53 <= Z.abs z →
  ∃ s q k, (s = 1 ∨ s = -1) ∧ 2 ^ 52 <= q <= 2 ^ 53 ∧ 1 <= k
           ∧ round53 z = s * (q * 2 ^ k).
Proof.
  intros Hbig. unfold round53.
  destruct (Z.ltb_spec (Z.abs z) (2 ^ 53)) as [?|_]; [lia|].
  set (a := Z.abs z) in *.
  assert (0 < a) as Ha by (change (2 ^ 53) with 9007199254740992 in Hbig; lia).
  destruct (Z.log2_spec a Ha) as [Hlo Hhi].
  assert (53 <= Z.log2 a) as Hlog by (apply Z.log2_le_pow2; lia).
  set (k := Z.log2 a - 52).
  assert (1 <= k) as Hk by (unfold k; lia).
  assert (0 < 2 ^ k) as Hpk by (apply Z.pow_pos_nonneg; lia).
  assert (2 ^ Z.log2 a = 2 ^ 52 * 2 ^ k) as Hsplit.
  { rewrite <- Z.pow_add_r by lia. f_equal. unfold k. lia. }
  assert (2 ^ Z.succ (Z.log2 a) = 2 ^ 53 * 2 ^ k) as Hsplit'.
  { rewrite <- Z.pow_add_r by lia. f_equal. unfold k. lia. }
  assert (2 ^ 52 <= a / 2 ^ k < 2 ^ 53) as Hq.
  { split.
    - apply Z.div_le_lower_bound; lia.
    - apply Z.div_lt_upper_bound; lia. }
  exists (Z.sgn z), (if (2 ^ (k - 1) <? a mod 2 ^ k)
                        || ((a mod 2 ^ k =? 2 ^ (k - 1)) && Z.odd (a / 2 ^ k))
                     then a / 2 ^ k + 1 else a / 2 ^ k), k.
  split; [|split; [|split; [exact Hk|reflexivity]]].
  - unfold a in Ha. destruct z; cbn in *; auto; lia.
  - destruct (_ || _); lia.
Qed.

Lemma round53_idempotent (z : Z) : round53 (round53 z) = round53 z.
Proof.
  destruct (Z.lt_ge_cases (Z.abs z) (2 ^ 53)) as [Hsmall|Hbig].
  - unfold round53 at 2.
    destruct (Z.ltb_spec (Z.abs z) (2 ^ 53)) as [_|?]; [|lia].
    unfold round53.
    destruct (Z.ltb_spec (Z.abs z) (2 ^ 53)) as [_|?]; [reflexivity|lia].
  - destruct (round53_shape z Hbig) as (s & q & k & Hs & Hq & Hk & ->).
    now apply round53_rounded.
Qed.

(** The instance has the law of strconv. *)
Lemma int_strconv_stable : strconv_stable int_FormatFloat int_ParseFloat.
Proof.
  intros n f Hparse. exists f. split; [reflexivity|].
  unfold int_ParseFloat in *.
  destruct (Z.abs (round53 n) <? 2 ^ 1024) eqn:Hrange; [|discriminate].
  injection Hparse as <-.
  now rewrite round53_idempotent, Hrange.
Qed.

End Rounding.

(** ** Runs of the normaliser *)

Section NormaliserRuns.

(** The [int64] 9007199254740993 is not a [float64]: it normalises to
    9007199254740992, which normalises to itself. *)
Lemma jsonRoundTrip_idempotent_witness :
  jsonRoundTrip (H := int_Env) (GoOther (GoRaw (RawInt 9007199254740993)))
  = Ok (GoOther (GoFloat64 9007199254740992%Z))
  ∧ jsonRoundTrip (H := int_Env) (GoOther (GoFloat64 9007199254740992%Z))
    = Ok (GoOther (GoFloat64 9007199254740992%Z)).
Proof.
  split; [reflexivity|].
  apply (jsonRoundTrip_idempotent (W := unit)
           int_FormatFloat int_ParseFloat int_Marshal_raw
           (λ _ _ _, Err ErrUnsupportedType) (λ _, Err ErrUnmarshalType)
           (λ _, "") ref_SplitLines ref_GetUnifiedDiffString
           (λ _ _, Some ErrNotExist) ref_IsNotExist
           (λ w _, (w, Some ErrNotExist)) (λ w _ _, (w, Some ErrPermission))
           (λ w _ _ _, (w, Some ErrPermission)) (λ _ _, Err ErrNotExist)
           (GoOther (GoRaw (RawInt 9007199254740993)))
           (GoOther (GoFloat64 9007199254740992%Z))).
  - exact int_strconv_stable.
  - reflexivity.
Defined.

(** A map given with its keys out of order, as a type of its own may
    write it, one key twice: the normalised map has the keys in order and
    the later binding, the integer is a [float64], the typed string slice
    an [[]interface{}]. *)
Example jsonRoundTrip_map :
  jsonRoundTrip (H := int_Env)
    (GoSlice
       [GoOther (GoMap [("b", GoOther (GoRaw (RawInt 1)));
                        ("a", GoStrings ["x"]);
                        ("b", GoOther GoNil)])])
  = Ok (GoSlice
          [GoOther (GoMap [("a", GoSlice [GoString "x"]);
                           ("b", GoOther GoNil)])]).
Proof. reflexivity. Qed.

(** A channel inside a map is refused. *)
Example jsonRoundTrip_map_chan :
  jsonRoundTrip (H := int_Env)
    (GoOther (GoMap [("a", GoOther (GoBool true));
                     ("b", GoOther (GoRaw RawChan))]))
  = Err ErrUnsupportedType.
Proof. reflexivity. Qed.

(** A literal beyond the range of [float64] is refused when it is read
    back. *)
Example jsonRoundTrip_out_of_range :
  jsonRoundTrip (H := int_Env) (GoOther (GoRaw (RawInt (2 ^ 1024))))
  = Err ErrUnmarshalType.
Proof. reflexivity. Qed.

End NormaliserRuns.
